(** * dgraph write path: mutation resolver and Kafka change-data-capture

    A shallow embedding of
    - [mutationResolver.resolve], [resolveMutation] and
      [resolveDeleteMutation] (package [resolve]), and
    - [Consumer.Setup], [Consumer.ConsumeClaim], [setupKafkaSource] and
      [setupKafkaTarget] (package [edgraph], kafka.go),
    together with the properties of the write path stated about them.

    Go byte slices and strings are [string]s (lists of 8-bit characters).
    Collaborators reached through Go interfaces are records of functions.
    For the resolver they act on an explicit external state (the backend
    and the heap of error objects) and the calls on the backend client are
    logged; for the Kafka code the world answers as a function of the trace
    of events so far, and the trace is the state. *)

From Stdlib Require Import ZArith Lia Ascii String.
From stdpp Require Import base option list strings functions gmap.

Local Open Scope string_scope.

(** The double-quote character (code 34) written by [b.WriteRune]. *)
Definition dquote : ascii := "034"%char.

(** * Package [resolve] *)
Module Resolve.

(** ** Data of packages [schema] and [x] used by the resolver *)

(** [schema.MutationType]: the three kinds the switch of [resolve] names;
    every other value falls into its [default] branch. *)
Inductive MutationType : Type :=
  | AddMutation
  | UpdateMutation
  | DeleteMutation
  | OtherMutation (tag : string).

Record Location : Type := { Line : Z; Column : Z }.

(** One step of an error path ([interface{}] holding a field name or an
    index). *)
Inductive PathElem : Type :=
  | PathName (s : string)
  | PathIndex (i : Z).

#[global] Instance PathElem_eq_dec : EqDecision PathElem.
Proof. solve_decision. Defined.

(** [x.GqlError]: the object behind a [*x.GqlError]. *)
Record GqlError : Type := {
  Message : string;
  Locations : list Location;
  Path : list PathElem
}.

(** Addresses of [x.GqlError] objects. [x.GqlErrorList] is a slice of such
    pointers, so two entries of a list, or two lists, may share an object.
    The heap is total: [nil] is not an address. *)
Abbreviation loc := nat (only parsing).
Abbreviation Heap := (loc -> GqlError) (only parsing).

(** Values of Go's [error] interface, by dynamic type. A [nil] error is
    [None : option error]. *)
Inductive error : Type :=
  | errorString (msg : string)
  | gqlerror_Error (e : GqlError)
  | GqlErrorPtr (p : loc)
  | GqlErrorList (errs : list loc).

(** [gqlerror.Errorf] (vektah/gqlparser): an error with a message only. *)
Definition gqlerror_Errorf (msg : string) : error :=
  gqlerror_Error {| Message := msg; Locations := []; Path := [] |}.

(** [resolved]: a JSON fragment and an error. *)
Record resolved : Type := { data : string; err : option error }.

Definition mutationFailed : bool := false.
Definition mutationSucceeded : bool := true.

Section Resolver.
(** Backend-native values handed from one collaborator to the next, and
    the state of the backend. *)
Context {Field NativeMutation NativeQuery Assigned Response Backend : Type}.

(** [schema.Mutation], by its methods. *)
Record Mutation : Type := {
  MutationKind : MutationType;     (* MutationType() *)
  ResponseName : string;
  Name : string;
  Alias : string;
  MutationLocation : Location;     (* Location() *)
  QueryField : Field
}.

(** State outside the resolver: the backend and the heap of error
    objects. *)
Record Ext : Type := { backend : Backend; heap : Heap }.

(** A collaborator call: it may read and change the external state. *)
Definition S (A : Type) : Type := Ext -> A * Ext.

(** Calls made on [dgraph.Client]. *)
Inductive Call : Type :=
  | CallMutate (mut : NativeMutation)
  | CallQuery (q : NativeQuery)
  | CallDeleteNodes (q : NativeQuery) (mut : NativeMutation).

Record World : Type := { ext : Ext; calls : list Call }.

(** The resolver's computations. *)
Definition M (A : Type) : Type := World -> A * World.

Definition ret {A} (a : A) : M A := fun w => (a, w).
Definition bind {A B} (m : M A) (k : A -> M B) : M B :=
  fun w => let '(a, w') := m w in k a w'.

(** A local collaborator (rewriter, completer, error helper). *)
Definition local {A} (f : S A) : M A :=
  fun w => let '(a, x) := f (ext w) in (a, {| ext := x; calls := calls w |}).

(** A call on the backend client, logged. *)
Definition client {A} (c : Call) (f : S A) : M A :=
  fun w => let '(a, x) := f (ext w) in
           (a, {| ext := x; calls := (calls w ++ [c])%list |}).

(** [dgraph.MutationRewriter]. *)
Record MutationRewriter : Type := {
  Rewrite : Mutation -> S (NativeMutation + error);
  RewriteDelete : Mutation -> S (NativeQuery * NativeMutation + error)
}.

(** [dgraph.QueryRewriter] (the method the resolver uses). *)
Record QueryRewriter : Type := {
  FromMutationResult : Mutation -> Assigned -> S (NativeQuery + error)
}.

(** [dgraph.Client]. *)
Record Client : Type := {
  Mutate : NativeMutation -> S (Assigned + error);
  Query : NativeQuery -> S (Response + error);
  DeleteNodes : NativeQuery -> NativeMutation -> S (option error)
}.

(** Functions of this repository that the resolver calls and whose code
    is not part of the sources at hand: [completeDgraphResult] of package
    [resolve], and [GQLWrapf], [GQLWrapLocationf], [AsGQLErrors] of
    package [schema]. They are taken as they are called: a format string
    with its arguments, and any effect on the external state. *)
Record Helpers : Type := {
  completeDgraphResult : Field -> Response -> S (string * option error);
  GQLWrapf : option error -> string -> list string -> S (option error);
  GQLWrapLocationf :
    option error -> Location -> string -> list string -> S (option error);
  AsGQLErrors : option error -> S (list loc)
}.

Record mutationResolver : Type := {
  mutation : Mutation;
  mutationRewriter : MutationRewriter;
  queryRewriter : QueryRewriter;
  dgraph : Client
}.

Notation "x <- c1 ;; c2" := (bind c1 (fun x => c2))
  (at level 100, c1 at next level, right associativity).

Variable H : Helpers.

(** ** [resolveMutation] (Add and Update)

    The tracing span that lines 165-171 open, annotate and close gives
    nothing back to the body and is left out, as is the context [ctx],
    which only carries it. *)
Definition resolveMutation (mr : mutationResolver) : M (resolved * bool) :=
  let m := mutation mr in
  r <- local (Rewrite (mutationRewriter mr) m) ;;
  match r with
  | inr e =>
      e' <- local (GQLWrapf H (Some e) "couldn't rewrite mutation" []) ;;
      ret ({| data := ""; err := e' |}, mutationFailed)
  | inl mut =>
      a <- client (CallMutate mut) (Mutate (dgraph mr) mut) ;;
      match a with
      | inr e =>
          e' <- local (GQLWrapLocationf H (Some e) (MutationLocation m)
                         "mutation %s failed" [Name m]) ;;
          ret ({| data := ""; err := e' |}, mutationFailed)
      | inl assigned =>
          q <- local (FromMutationResult (queryRewriter mr) m assigned) ;;
          match q with
          | inr e =>
              e' <- local (GQLWrapf H (Some e)
                             "couldn't rewrite mutation %s" [Name m]) ;;
              ret ({| data := ""; err := e' |}, mutationSucceeded)
          | inl dgQuery =>
              resp <- client (CallQuery dgQuery)
                             (Query (dgraph mr) dgQuery) ;;
              match resp with
              | inr e =>
                  e' <- local (GQLWrapf H (Some e)
                    "mutation %s created a node but query failed"
                    [Name m]) ;;
                  ret ({| data := ""; err := e' |}, mutationSucceeded)
              | inl resp =>
                  c <- local (completeDgraphResult H
                                (QueryField m) resp) ;;
                  ret ({| data := fst c; err := snd c |},
                       mutationSucceeded)
              end
          end
      end
  end.

(** The literal of line 226. *)
Definition deletedMsg : string :=
  "{ " +:+ String dquote ("msg" +:+ String dquote
    (": " +:+ String dquote ("Deleted" +:+ String dquote " }"))).

(** ** [resolveDeleteMutation] *)
Definition resolveDeleteMutation (mr : mutationResolver)
  : M (resolved * bool) :=
  let m := mutation mr in
  r <- local (RewriteDelete (mutationRewriter mr) m) ;;
  match r with
  | inr e =>
      e' <- local (GQLWrapf H (Some e) "couldn't rewrite mutation" []) ;;
      ret ({| data := ""; err := e' |}, mutationFailed)
  | inl (query, mut) =>
      d <- client (CallDeleteNodes query mut)
                  (DeleteNodes (dgraph mr) query mut) ;;
      match d with
      | Some e =>
          e' <- local (GQLWrapf H (Some e) "mutation %s failed" [Name m]) ;;
          ret ({| data := ""; err := e' |}, mutationFailed)
      | None =>
          ret ({| data := deletedMsg; err := None |}, mutationSucceeded)
      end
  end.

(** ** Post-processing of [resolve] *)

(** Lines 139-148: the buffer receives a quote, the response name, a
    quote, a colon and a space, then the data, or [null] when the data
    has length zero. *)
Definition wrapData (name d : string) : string :=
  String dquote (name +:+ String dquote (": " +:+
    (if (0 <? String.length d)%nat then d else "null"))).

Definition prefixPath (name : string) (e : GqlError) : GqlError :=
  {| Message := Message e; Locations := Locations e;
     Path := PathName name :: Path e |}.

(** Lines 152-157: the loop over [resErrs]. Each entry is a pointer; a
    non-empty path is replaced, in the object pointed to, by the path
    with the response name in front. *)
Fixpoint prefixPaths (name : string) (resErrs : list loc) (h : Heap)
  : Heap :=
  match resErrs with
  | [] => h
  | p :: rest =>
      let h' :=
        if (0 <? length (Path (h p)))%nat
        then alter (prefixPath name) p h
        else h in
      prefixPaths name rest h'
  end.

(** The loop copies the pointers into [errs] one for one. *)
Definition prefixErrors (name : string) (resErrs : list loc)
  : M (list loc) :=
  fun w =>
    (resErrs,
     {| ext := {| backend := backend (ext w);
                  heap := prefixPaths name resErrs (heap (ext w)) |};
        calls := calls w |}).

(** The switch of lines 121-133: [None] stands for the [default] branch,
    which returns from [resolve] at once. *)
Definition dispatch (mr : mutationResolver)
  : M (option (resolved * bool)) :=
  match MutationKind (mutation mr) with
  | AddMutation => r <- resolveMutation mr ;; ret (Some r)
  | DeleteMutation => r <- resolveDeleteMutation mr ;; ret (Some r)
  | UpdateMutation => r <- resolveMutation mr ;; ret (Some r)
  | OtherMutation _ => ret None
  end.

Definition unsupportedMsg : string :=
  "Only add, delete and update mutations are implemented".

(** ** [resolve] *)
Definition resolve (mr : mutationResolver) : M (resolved * bool) :=
  sw <- dispatch mr ;;
  match sw with
  | None =>
      ret ({| data := ""; err := Some (gqlerror_Errorf unsupportedMsg) |},
           mutationFailed)
  | Some (res, succeeded) =>
      let name := ResponseName (mutation mr) in
      resErrs <- local (AsGQLErrors H (err res)) ;;
      errs <- prefixErrors name resErrs ;;
      ret ({| data := wrapData name (data res);
              err := Some (GqlErrorList errs) |}, succeeded)
  end.

(** The paths of the errors a result carries, read in heap [h]. *)
Definition errorPaths (h : Heap) (e : option error) : list (list PathElem) :=
  match e with
  | None => []
  | Some (errorString _) => [[]]
  | Some (gqlerror_Error g) => [Path g]
  | Some (GqlErrorPtr p) => [Path (h p)]
  | Some (GqlErrorList errs) => (fun p => Path (h p)) <$> errs
  end.
End Resolver.

Arguments Mutation : clear implicits.
Arguments Ext : clear implicits.
Arguments Call : clear implicits.
Arguments World : clear implicits.
Arguments MutationRewriter : clear implicits.
Arguments QueryRewriter : clear implicits.
Arguments Client : clear implicits.
Arguments Helpers : clear implicits.
Arguments mutationResolver : clear implicits.

(** ** A scripted backend

    A concrete set of collaborators on which the resolver can be run: the
    backend is the list of mutations it has applied, and a script says
    which collaborator fails. *)
Module Scripted.
Record Script : Type := {
  rewriteFails : bool;
  mutateFails : bool;
  fromResultFails : bool;
  queryFails : bool;
  deleteFails : bool
}.

Definition allGood : Script :=
  {| rewriteFails := false; mutateFails := false; fromResultFails := false;
     queryFails := false; deleteFails := false |}.

Definition rewriteBroken : Script :=
{| rewriteFails := true; mutateFails := false; fromResultFails := false;
   queryFails := false; deleteFails := false |}.

Definition queryBroken : Script :=
{| rewriteFails := false; mutateFails := false; fromResultFails := false;
   queryFails := true; deleteFails := false |}.

Abbreviation Mut := (Mutation string) (only parsing).
Abbreviation X := (Ext (list string)) (only parsing).

Definition orFail {A} (fails : bool) (msg : string) (a : A) : A + error :=
  if fails then inr (errorString msg) else inl a.

Definition apply (mut : string) (x : X) : X :=
  {| backend := (backend x ++ [mut])%list; heap := heap x |}.

Definition store (p : loc) (e : GqlError) (x : X) : X :=
  {| backend := backend x; heap := <[p := e]> (heap x) |}.

Definition rewriter (sc : Script) : MutationRewriter string string string (list string) :=
  {| Rewrite := fun (m : Mut) x =>
       (orFail (rewriteFails sc) "bad input" ("set " +:+ Name m), x);
     RewriteDelete := fun (m : Mut) x =>
       (orFail (rewriteFails sc) "bad filter"
               ("query " +:+ Name m, "delete " +:+ Name m), x) |}.

Definition queries (sc : Script) : QueryRewriter string string (list string) (list string) :=
  {| FromMutationResult := fun (m : Mut) assigned x =>
       (orFail (fromResultFails sc) "no uid" ("get " +:+ Name m), x) |}.

Definition backendClient (sc : Script) : Client string string (list string) string (list string) :=
  {| Mutate := fun mut x =>
       if mutateFails sc then (inr (errorString "unavailable"), x)
       else (inl ["0x1"], apply mut x);
     Query := fun q x =>
       (orFail (queryFails sc) "timeout" ("result of " +:+ q), x);
     DeleteNodes := fun q mut x =>
       if deleteFails sc then (Some (errorString "unavailable"), x)
       else (None, apply mut x) |}.

(** Helpers in the manner of package [schema]: wrapping keeps an error
    non-nil, a list of errors is returned as it is, and any other error
    becomes one fresh object (here at address 0). The completer reports
    one object twice, with a path into the selection. *)
Definition helpers : Helpers string string (list string) :=
  {| completeDgraphResult := fun field resp (x : X) =>
       ("{ }", Some (GqlErrorList [1; 2; 1]), x);
     GQLWrapf := fun e fmt args (x : X) =>
       (match e with
        | Some _ => Some (errorString fmt)
        | None => None
        end, x);
     GQLWrapLocationf := fun e l fmt args (x : X) =>
       (match e with
        | Some _ => Some (errorString fmt)
        | None => None
        end, x);
     AsGQLErrors := fun e (x : X) =>
       match e with
       | None => ([], x)
       | Some (errorString msg) =>
           ([0], store 0 {| Message := msg; Locations := []; Path := [] |} x)
       | Some (gqlerror_Error g) => ([0], store 0 g x)
       | Some (GqlErrorPtr p) => ([p], x)
       | Some (GqlErrorList errs) => (errs, x)
       end |}.

Definition mut (k : MutationType) : Mut :=
  {| MutationKind := k; ResponseName := "addUser"; Name := "addUser";
     Alias := ""; MutationLocation := {| Line := 2; Column := 3 |};
     QueryField := "user" |}.

Definition resolver (sc : Script) (k : MutationType)
  : mutationResolver string string string (list string) string (list string) :=
  {| mutation := mut k; mutationRewriter := rewriter sc;
     queryRewriter := queries sc; dgraph := backendClient sc |}.

(** Object 1 has a path, every other object has none. *)
Definition heap0 : Heap := fun p =>
  {| Message := "x"; Locations := [];
     Path := if decide (p = 1) then [PathName "user"; PathIndex 0] else [] |}.

Definition w0 : World string string (list string) :=
  {| ext := {| backend := []; heap := heap0 |}; calls := [] |}.

Definition mutateBroken : Script :=
  {| rewriteFails := false; mutateFails := true; fromResultFails := false;
     queryFails := false; deleteFails := false |}.

Definition deleteBroken : Script :=
  {| rewriteFails := false; mutateFails := false; fromResultFails := false;
     queryFails := false; deleteFails := true |}.

(** The same helpers with a completer that reports objects 1 and 2 once
    each. *)
Definition helpersDistinct : Helpers string string (list string) :=
  {| completeDgraphResult := fun field resp (x : X) =>
       ("{ }", Some (GqlErrorList [1; 2]), x);
     GQLWrapf := GQLWrapf helpers;
     GQLWrapLocationf := GQLWrapLocationf helpers;
     AsGQLErrors := AsGQLErrors helpers |}.
End Scripted.

End Resolve.

(** * Package [edgraph], kafka.go *)
Module Edgraph.

(** Go errors of this package are only logged, returned or thrown. *)
Abbreviation error := string (only parsing).

(** [pb.KV] and [pb.KVList] (badger). *)
Record KV : Type := {
  Key : string;
  Value : string;
  UserMeta : string;
  Version : Z;
  ExpiresAt : Z
}.

Record KVList : Type := { Kv : list KV }.

(** [sarama.ConsumerMessage]. *)
Record ConsumerMessage : Type := {
  MsgKey : string;
  MsgValue : string;
  MsgTopic : string;
  MsgPartition : Z;
  MsgOffset : Z;
  MsgTimestamp : Z
}.

(** [sarama.ProducerMessage], the fields [cb] sets. *)
Record ProducerMessage : Type := { Topic : string; PValue : string }.

(** [sarama.Config], the fields the setup functions set. [None] is the
    version [sarama.NewConfig] starts with. *)
Record Config : Type := {
  ConfigVersion : option (list Z);
  ProducerReturnSuccesses : bool
}.

Definition NewConfig : Config :=
  {| ConfigVersion := None; ProducerReturnSuccesses := false |}.

Definition V2_2_0_0 : list Z := [2; 2; 0; 0]%Z.

(** Handles of objects that live outside the model. *)
Abbreviation Loader := nat (only parsing).
Abbreviation ConsumerGroup := nat (only parsing).
Abbreviation SyncProducer := nat (only parsing).
Abbreviation chan := nat (only parsing).

(** glog levels: [Infof], [Errorf] and [V(n).Infof]. *)
Inductive Severity : Type := INFO | ERROR | VINFO (level : Z).

Inductive Arg : Type :=
  | ArgErr (e : error)
  | ArgStr (s : string)
  | ArgInt (n : Z)
  | ArgList (l : KVList).

(** Everything the code does that can be seen from outside, in order. A
    call is recorded with what it returned. *)
Inductive Event : Type :=
  | EvLog (sev : Severity) (format : string) (args : list Arg)
  | EvSleep (nanoseconds : Z)
  | EvNewConsumerGroup (addrs : list string) (group : string) (cfg : Config)
      (r : ConsumerGroup + error)
  | EvNewSyncProducer (addrs : list string) (cfg : Config)
      (r : SyncProducer + error)
  | EvNewLoader (l : Loader) (maxPendingWrites : Z)
  | EvSet (l : Loader) (kv : KV) (r : option error)
  | EvFinish (l : Loader) (r : option error)
  | EvMarkMessage (msg : ConsumerMessage) (metadata : string)
  | EvSendMessage (p : SyncProducer) (msg : ProducerMessage)
      (r : option error)
  | EvGo (what : string).

(** The world outside the process, as a deterministic function of what
    has happened so far: protobuf coding, the Kafka client constructors
    and producer, and the storage loader, whose [Set] and [Finish] return
    an [error] (badger). The constants [kafkaTopic] and [kafkaGroup] are
    declared elsewhere in the package. *)
Record Env : Type := {
  kafkaTopic : string;
  kafkaGroup : string;
  Unmarshal : string -> KVList + error;
  Marshal : KVList -> string + error;
  NewConsumerGroup :
    list Event -> list string -> string -> Config -> ConsumerGroup + error;
  NewSyncProducer :
    list Event -> list string -> Config -> SyncProducer + error;
  LoaderSet : list Event -> Loader -> KV -> option error;
  LoaderFinish : list Event -> Loader -> option error;
  SendMessage : list Event -> SyncProducer -> ProducerMessage -> option error
}.

Inductive ChanState : Type := Open | Closed.

(** State of the process: the trace so far and its channels. *)
Record World : Type := { trace : list Event; chans : gmap nat ChanState }.

Inductive PanicValue : Type :=
  | PanicError (e : error)             (* panic(err) *)
  | RuntimeError (msg : string).       (* raised by the Go runtime *)

Inductive Outcome (A : Type) : Type :=
  | Returned (a : A)
  | Panicked (v : PanicValue).
Arguments Returned {A} a.
Arguments Panicked {A} v.

Definition M (A : Type) : Type := World -> Outcome A * World.

Definition ret {A} (a : A) : M A := fun w => (Returned a, w).
Definition bind {A B} (m : M A) (k : A -> M B) : M B :=
  fun w => match m w with
           | (Returned a, w') => k a w'
           | (Panicked v, w') => (Panicked v, w')
           end.
Definition panic {A} (v : PanicValue) : M A := fun w => (Panicked v, w).

(** Perform a call: the answer is computed from the trace so far and the
    event is appended. *)
Definition emit {A} (f : list Event -> A * Event) : M A :=
  fun w => let '(a, ev) := f (trace w) in
           (Returned a, {| trace := trace w ++ [ev]; chans := chans w |}).

Definition glog (sev : Severity) (format : string) (args : list Arg)
  : M unit :=
  emit (fun _ => (tt, EvLog sev format args)).

Definition Sleep (d : Z) : M unit := emit (fun _ => (tt, EvSleep d)).

Definition Second : Z := 1000000000.

(** [strings.Split] with a separator of one character. *)
Fixpoint Split (sep : ascii) (s : string) : list string :=
  match s with
  | EmptyString => [EmptyString]
  | String c s' =>
      if Ascii.eqb c sep then EmptyString :: Split sep s'
      else match Split sep s' with
           | h :: t => String c h :: t
           | [] => [String c EmptyString]
           end
  end.

Definition comma : ascii := ","%char.

(** ** Channels *)

(** [make(chan bool, 0)]. *)
Definition makeChan : M chan := fun w =>
  let c := fresh (dom (chans w)) in
  (Returned c, {| trace := trace w; chans := <[c := Open]> (chans w) |}).

(** [close(c)]: closing a closed or a nil channel panics. *)
Definition closeChan (c : chan) : M unit := fun w =>
  match chans w !! c with
  | Some Open =>
      (Returned tt, {| trace := trace w; chans := <[c := Closed]> (chans w) |})
  | Some Closed => (Panicked (RuntimeError "close of closed channel"), w)
  | None => (Panicked (RuntimeError "close of nil channel"), w)
  end.

(** ** The consumer *)

Record Consumer : Type := { ready : chan }.

Definition Setup (consumer : Consumer) : M (option error) :=
  bind (closeChan (ready consumer)) (fun _ => ret None).

Definition Cleanup (consumer : Consumer) : M (option error) := ret None.

(** The number of loaders opened so far names the next one. *)
Definition isNewLoader (ev : Event) : bool :=
  match ev with EvNewLoader _ _ => true | _ => false end.

Definition nextLoader (tr : list Event) : Loader :=
  length (filter (fun ev => isNewLoader ev = true) tr).

Section WithEnv.
Variable env : Env.

Notation "x <- c1 ;; c2" := (bind c1 (fun x => c2))
  (at level 100, c1 at next level, right associativity).
Notation "c1 ;;; c2" := (bind c1 (fun _ => c2))
  (at level 100, right associativity).

(** [State.Pstore.NewLoader(n)]. *)
Definition NewLoader (n : Z) : M Loader :=
  emit (fun tr => (nextLoader tr, EvNewLoader (nextLoader tr) n)).

(** [loader.Set(kv)] and [loader.Finish()], with the error they return. *)
Definition loader_Set (l : Loader) (kv : KV) : M (option error) :=
  emit (fun tr => (LoaderSet env tr l kv, EvSet l kv (LoaderSet env tr l kv))).

Definition loader_Finish (l : Loader) : M (option error) :=
  emit (fun tr => (LoaderFinish env tr l, EvFinish l (LoaderFinish env tr l))).

Definition MarkMessage (msg : ConsumerMessage) (metadata : string) : M unit :=
  emit (fun _ => (tt, EvMarkMessage msg metadata)).

(** Lines 40-42: the loop over [list.Kv]; the value of each
    [loader.Set(kv)] is dropped. *)
Fixpoint setAll (loader : Loader) (kvs : list KV) : M unit :=
  match kvs with
  | [] => ret tt
  | kv :: rest => loader_Set loader kv ;;; setAll loader rest
  end.

(** [ConsumeClaim], over the messages the claim delivers before its
    channel is closed. *)
Fixpoint ConsumeClaim (messages : list ConsumerMessage) : M (option error) :=
  match messages with
  | [] => ret None
  | message :: rest =>
      match Unmarshal env (MsgValue message) with
      | inr e =>
          glog ERROR "error while unmarshaling from consumed message: %v"
               [ArgErr e] ;;;
          ret (Some e)
      | inl list =>
          loader <- NewLoader 16 ;;
          setAll loader (Kv list) ;;;
          loader_Finish loader ;;;
          glog (VINFO 1)
            "Message stored: value = %+v, timestamp = %v, topic = %s"
            [ArgList list; ArgInt (MsgTimestamp message);
             ArgStr (MsgTopic message)] ;;;
          MarkMessage message "" ;;;
          ConsumeClaim rest
      end
  end.

(** ** Bootstrap *)

(** [sarama.NewConsumerGroup] and [sarama.NewSyncProducer]. *)
Definition newConsumerGroup (addrs : list string) (group : string)
    (cfg : Config) : M (ConsumerGroup + error) :=
  emit (fun tr => (NewConsumerGroup env tr addrs group cfg,
                   EvNewConsumerGroup addrs group cfg
                     (NewConsumerGroup env tr addrs group cfg))).

Definition newSyncProducer (addrs : list string) (cfg : Config)
  : M (SyncProducer + error) :=
  emit (fun tr => (NewSyncProducer env tr addrs cfg,
                   EvNewSyncProducer addrs cfg
                     (NewSyncProducer env tr addrs cfg))).

(** The loop [for i := 0; i < 10; i++] of both setup functions: [cur]
    holds the variables [client] and [err], [remaining] the iterations
    left. *)
Fixpoint retryLoop {C} (construct : M (C + error)) (complaint : string)
    (remaining : nat) (cur : option C * option error)
  : M (option C * option error) :=
  match remaining with
  | O => ret cur
  | Datatypes.S k =>
      r <- construct ;;
      match r with
      | inl c => ret (Some c, None)
      | inr e =>
          glog ERROR complaint [ArgErr e] ;;;
          Sleep (5 * Second) ;;;
          retryLoop construct complaint k (None, Some e)
      end
  end.

Inductive SourceState : Type :=
  | SourceOff                                   (* no brokers configured *)
  | SourceAwaitingReady (client : option ConsumerGroup) (consumer : Consumer).

(** [setupKafkaSource], up to the point where the consume loop has been
    started as a goroutine and the caller waits on [consumer.ready]. *)
Definition setupKafkaSource (sourceBrokers : string) : M SourceState :=
  glog INFO "source kafka brokers: %v" [ArgStr sourceBrokers] ;;;
  if (0 <? String.length sourceBrokers)%nat then
    let config := {| ConfigVersion := Some V2_2_0_0;
                     ProducerReturnSuccesses :=
                       ProducerReturnSuccesses NewConfig |} in
    c <- makeChan ;;
    let consumer := {| ready := c |} in
    r <- retryLoop
           (newConsumerGroup (Split comma sourceBrokers) (kafkaGroup env)
                             config)
           "unable to create the kafka consumer, will retry in 5 seconds: %v"
           10 (None, None) ;;
    match snd r with
    | Some e => panic (PanicError e)
    | None =>
        emit (fun _ => (tt, EvGo "consume")) ;;;
        ret (SourceAwaitingReady (fst r) consumer)
    end
  else ret SourceOff.

(** What one call of [client.Consume] does (sarama): it fails to join the
    group, or it runs a session: [Setup], then [ConsumeClaim] for each
    claim, then [Cleanup]. *)
Inductive Attempt : Type :=
  | JoinFails (e : error)
  | Session (claims : list (list ConsumerMessage)) (result : option error).

Fixpoint consumeClaims (claims : list (list ConsumerMessage)) : M unit :=
  match claims with
  | [] => ret tt
  | claim :: rest => ConsumeClaim claim ;;; consumeClaims rest
  end.

Definition Consume (consumer : Consumer) (a : Attempt) : M (option error) :=
  match a with
  | JoinFails e => ret (Some e)
  | Session claims result =>
      Setup consumer ;;;
      consumeClaims claims ;;;
      Cleanup consumer ;;;
      ret result
  end.

(** Lines 88-93: the endless loop of the goroutine, for as many calls of
    [Consume] as are given. *)
Fixpoint consumeLoop (consumer : Consumer) (attempts : list Attempt)
  : M unit :=
  match attempts with
  | [] => ret tt
  | a :: rest =>
      e <- Consume consumer a ;;
      match e with
      | Some e => glog ERROR "error while consuming from kafka: %v" [ArgErr e]
      | None => ret tt
      end ;;;
      consumeLoop consumer rest
  end.

(** ** The producer *)

(** The subscription callback of lines 127-140. The error of
    [producer.SendMessage] is assigned and not read again. *)
Definition producer_SendMessage (p : SyncProducer) (msg : ProducerMessage)
  : M (option error) :=
  emit (fun tr => (SendMessage env tr p msg,
                   EvSendMessage p msg (SendMessage env tr p msg))).

Definition cb (producer : option SyncProducer) (list : KVList) : M unit :=
  match Marshal env list with
  | inr e => glog ERROR "unable to marshal the kv list: %+v" [ArgErr e]
  | inl listBytes =>
      match producer with
      | None => panic (RuntimeError "nil pointer dereference")
      | Some p =>
          producer_SendMessage p {| Topic := kafkaTopic env;
                                    PValue := listBytes |} ;;;
          glog (VINFO 1) "produced a list with %d messages to kafka"
               [ArgInt (Z.of_nat (length (Kv list)))]
      end
  end.

Inductive TargetState : Type :=
  | TargetOff                                 (* no brokers configured *)
  | TargetDisabled                            (* no producer: not publishing *)
  | TargetSubscribed (producer : option SyncProducer).

(** [setupKafkaTarget], up to the point where [Subscribe] has been
    started as a goroutine with [cb]. *)
Definition setupKafkaTarget (targetBrokers : string) : M TargetState :=
  glog INFO "target kafka brokers: %v" [ArgStr targetBrokers] ;;;
  if (0 <? String.length targetBrokers)%nat then
    let conf := {| ConfigVersion := ConfigVersion NewConfig;
                   ProducerReturnSuccesses := true |} in
    r <- retryLoop
           (newSyncProducer (Split comma targetBrokers) conf)
           "unable to create the kafka sync producer, will retry in 5 seconds: %v"
           10 (None, None) ;;
    match snd r with
    | Some e =>
        glog ERROR
          "unable to create the kafka sync producer, and will not publish updates"
          [] ;;;
        ret TargetDisabled
    | None =>
        emit (fun _ => (tt, EvGo "subscribe")) ;;;
        glog (VINFO 1) "subscribed to the pstore for updates" [] ;;;
        ret (TargetSubscribed (fst r))
    end
  else ret TargetOff.

(** The batches [Subscribe] hands to [cb], one call each. *)
Fixpoint subscription (producer : option SyncProducer)
    (batches : list KVList) : M unit :=
  match batches with
  | [] => ret tt
  | b :: rest => cb producer b ;;; subscription producer rest
  end.
End WithEnv.

(** ** Reading a trace *)




(** The events of [loader.Set] over the records [kvs], starting after the
    trace [tr]: each answer is the one the environment gives at that
    point. *)
Fixpoint setEvents (env : Env) (l : Loader) (kvs : list KV) (tr : list Event)
  : list Event :=
  match kvs with
  | [] => []
  | kv :: rest =>
      let ev := EvSet l kv (LoaderSet env tr l kv) in
      ev :: setEvents env l rest (tr ++ [ev])
  end.

(** The events of one message whose value decodes to [batch], received
    after the trace [tr]. *)
Definition batchEvents (env : Env) (message : ConsumerMessage) (batch : KVList)
    (tr : list Event) : list Event :=
  let l := nextLoader tr in
  let sets := setEvents env l (Kv batch) (tr ++ [EvNewLoader l 16]) in
  EvNewLoader l 16 :: sets ++
  [EvFinish l (LoaderFinish env (tr ++ EvNewLoader l 16 :: sets) l);
   EvLog (VINFO 1) "Message stored: value = %+v, timestamp = %v, topic = %s"
     [ArgList batch; ArgInt (MsgTimestamp message); ArgStr (MsgTopic message)];
   EvMarkMessage message ""].

(** The record a [Set] event carries. *)
Definition setRecord (ev : Event) : option KV :=
  match ev with EvSet _ kv _ => Some kv | _ => None end.

(** The messages marked in a trace, in order. *)
Definition markedMessage (ev : Event) : option ConsumerMessage :=
  match ev with EvMarkMessage m _ => Some m | _ => None end.

Definition marked (tr : list Event) : list ConsumerMessage :=
  omap markedMessage tr.

(** The messages of a claim up to the first whose value does not decode. *)
Fixpoint decodablePrefix (env : Env) (messages : list ConsumerMessage)
  : list ConsumerMessage :=
  match messages with
  | [] => []
  | m :: rest =>
      match Unmarshal env (MsgValue m) with
      | inl _ => m :: decodablePrefix env rest
      | inr _ => []
      end
  end.

(** How often each client constructor has been called. *)
Definition isNewConsumerGroup (ev : Event) : bool :=
  match ev with EvNewConsumerGroup _ _ _ _ => true | _ => false end.

Definition isNewSyncProducer (ev : Event) : bool :=
  match ev with EvNewSyncProducer _ _ _ => true | _ => false end.

Definition count (P : Event -> bool) (tr : list Event) : nat :=
  length (filter (fun ev => P ev = true) tr).

(** Kinds of events, for counting. *)
Definition isFinish (ev : Event) : bool :=
  match ev with EvFinish _ _ => true | _ => false end.

Definition isSleep (ev : Event) : bool :=
  match ev with EvSleep _ => true | _ => false end.

Definition isErrorLog (ev : Event) : bool :=
  match ev with EvLog ERROR _ _ => true | _ => false end.

(** The records handed to [Set] in a trace, in order. *)
Definition setRecords (tr : list Event) : list KV := omap setRecord tr.

(** The error of the first message of a claim that does not decode. *)
Fixpoint firstDecodeError (env : Env) (messages : list ConsumerMessage)
  : option error :=
  match messages with
  | [] => None
  | m :: rest =>
      match Unmarshal env (MsgValue m) with
      | inl _ => firstDecodeError env rest
      | inr e => Some e
      end
  end.

(** The records of the messages before the first that does not decode. *)
Fixpoint loadedRecords (env : Env) (messages : list ConsumerMessage)
  : list KV :=
  match messages with
  | [] => []
  | m :: rest =>
      match Unmarshal env (MsgValue m) with
      | inl batch => Kv batch ++ loadedRecords env rest
      | inr _ => []
      end
  end.

(** The messages sent in a trace, in order, and the messages that a list
    of batches serializes to. *)
Definition sentMessage (ev : Event) : option ProducerMessage :=
  match ev with EvSendMessage _ msg _ => Some msg | _ => None end.

Definition sends (tr : list Event) : list ProducerMessage :=
  omap sentMessage tr.

Definition serialized (env : Env) (batches : list KVList)
  : list ProducerMessage :=
  omap (fun b => match Marshal env b with
                 | inl bytes => Some {| Topic := kafkaTopic env;
                                        PValue := bytes |}
                 | inr _ => None
                 end) batches.

(** ** A scripted environment

    Records are coded as [key=value], batches as records joined by [;].
    The script says how many constructor calls fail, and whether
    [Finish] and [SendMessage] fail. *)
Module Scripted.
Definition semicolon : ascii := ";"%char.
Definition equals : ascii := "="%char.

Definition decodeKV (s : string) : option KV :=
  match Split equals s with
  | [k; v] => Some {| Key := k; Value := v; UserMeta := "";
                      Version := 1; ExpiresAt := 0 |}
  | _ => None
  end.

Definition decode (s : string) : KVList + error :=
  match mapM decodeKV (Split semicolon s) with
  | Some kvs => inl {| Kv := kvs |}
  | None => inr "proto: illegal record"
  end.

Definition encodeKV (kv : KV) : string :=
  Key kv +:+ String equals (Value kv).

Fixpoint join (l : list string) : string :=
  match l with
  | [] => ""
  | [x] => x
  | x :: rest => x +:+ String semicolon (join rest)
  end.

Definition encode (l : KVList) : string + error :=
  match Kv l with
  | [] => inr "proto: empty list"
  | kvs => inl (join (encodeKV <$> kvs))
  end.

Definition env (ctorFailures : nat) (finishFails sendFails : bool) : Env :=
  {| kafkaTopic := "dgraph"; kafkaGroup := "dgraph";
     Unmarshal := decode; Marshal := encode;
     NewConsumerGroup := fun tr _ _ _ =>
       if (count isNewConsumerGroup tr <? ctorFailures)%nat
       then inr "kafka: client has run out of available brokers"
       else inl 7;
     NewSyncProducer := fun tr _ _ =>
       if (count isNewSyncProducer tr <? ctorFailures)%nat
       then inr "kafka: client has run out of available brokers"
       else inl 8;
     LoaderSet := fun _ _ _ => None;
     LoaderFinish := fun _ _ =>
       if finishFails then Some "writes are blocked" else None;
     SendMessage := fun _ _ _ =>
       if sendFails then Some "kafka: message too large" else None |}.

Definition message (value : string) : ConsumerMessage :=
  {| MsgKey := ""; MsgValue := value; MsgTopic := "dgraph";
     MsgPartition := 0; MsgOffset := 0; MsgTimestamp := 0 |}.

Definition kv (k v : string) : KV :=
  {| Key := k; Value := v; UserMeta := ""; Version := 1; ExpiresAt := 0 |}.

Definition w0 : World := {| trace := []; chans := ∅ |}.

(** A world with one open channel, at address 0. *)
Definition wOpen : World := {| trace := []; chans := {[0 := Open]} |}.

Definition brokers : string := "kafka1:9092,kafka2:9092".

Definition batch3 : KVList := {| Kv := [kv "a" "1"; kv "b" "2"; kv "a" "3"] |}.
End Scripted.

End Edgraph.

(** * Properties of the mutation resolver *)
Section ResolveProperties.
Import Resolve.
Context {Field NativeMutation NativeQuery Assigned Response Backend : Type}.
Abbreviation Resolver :=
  (mutationResolver Field NativeMutation NativeQuery Assigned Response Backend)
  (only parsing).
Abbreviation W := (World NativeMutation NativeQuery Backend) (only parsing).
Variable H : Helpers Field Response Backend.

(** ** The loop over the error list *)

Lemma prefixPaths_nil name (h : Heap) : prefixPaths name [] h = h.
Proof. reflexivity. Qed.

Lemma prefixPaths_cons name p rest (h : Heap) :
  prefixPaths name (p :: rest) h =
  prefixPaths name rest
    (if (0 <? length (Path (h p)))%nat then alter (prefixPath name) p h else h).
Proof. reflexivity. Qed.

Lemma replicate_snoc_cons {A} (n : nat) (x : A) (l : list A) :
  (replicate n x ++ x :: l = x :: replicate n x ++ l)%list.
Proof. induction n as [|n IH]; simpl; [done | by rewrite IH]. Qed.

(** What the loop leaves at an address: an empty path stays empty, a
    non-empty path receives the name once for every entry of the list that
    points to it; nothing else of the object changes. *)
Lemma prefixPaths_spec name resErrs : forall (h : Heap) (p : loc),
  Path (prefixPaths name resErrs h p) =
    (if decide (Path (h p) = [])
     then []
     else replicate (count_occ Nat.eq_dec resErrs p) (PathName name)
            ++ Path (h p))%list
  /\ Message (prefixPaths name resErrs h p) = Message (h p)
  /\ Locations (prefixPaths name resErrs h p) = Locations (h p).
Proof.
  induction resErrs as [|q rest IH]; intros h p.
  - simpl. by destruct (decide (Path (h p) = [])).
  - rewrite prefixPaths_cons.
    destruct (IH (if (0 <? length (Path (h q)))%nat
                  then alter (prefixPath name) q h else h) p)
      as (IHp & IHm & IHl).
    rewrite IHp, IHm, IHl. clear IH IHp IHm IHl.
    simpl count_occ.
    destruct (Nat.eq_dec q p) as [->|Hne].
    + destruct (Path (h p)) as [|a l] eqn:Hp; simpl.
      * rewrite Hp. by rewrite decide_True.
      * rewrite fn_lookup_alter. simpl. rewrite Hp.
        by rewrite replicate_snoc_cons.
    + destruct (0 <? length (Path (h q)))%nat; [|done].
      by rewrite fn_lookup_alter_ne.
Qed.

Lemma prefixPaths_head name resErrs (h : Heap) (p : loc) :
  p ∈ resErrs -> Path (h p) <> [] ->
  head (Path (prefixPaths name resErrs h p)) = Some (PathName name).
Proof.
  intros Hin Hne. destruct (prefixPaths_spec name resErrs h p) as [-> _].
  rewrite decide_False by done.
  apply list_elem_of_In, (count_occ_In Nat.eq_dec) in Hin.
  destruct (count_occ Nat.eq_dec resErrs p); [lia | done].
Qed.

(** ** [resolve], branch by branch *)

Lemma wrapData_spec name d :
  wrapData name d =
  String dquote (name +:+ String dquote
    (": " +:+ (if decide (d = "") then "null" else d))).
Proof. by destruct d. Qed.

Lemma dispatch_spec (mr : Resolver) (w : W) :
  dispatch H mr w =
  match MutationKind (mutation mr) with
  | AddMutation | UpdateMutation =>
      (Some (resolveMutation H mr w).1, (resolveMutation H mr w).2)
  | DeleteMutation =>
      (Some (resolveDeleteMutation H mr w).1, (resolveDeleteMutation H mr w).2)
  | OtherMutation _ => (None, w)
  end.
Proof.
  unfold dispatch, bind, ret.
  destruct (MutationKind (mutation mr)); try done.
  - by destruct (resolveMutation H mr w).
  - by destruct (resolveMutation H mr w).
  - by destruct (resolveDeleteMutation H mr w).
Qed.

(** [resolve] after the switch: the default branch returns at once, every
    other branch goes through the wrapping and the loop over the errors. *)
Lemma resolve_spec (mr : Resolver) (w : W) :
  resolve H mr w =
  match dispatch H mr w with
  | (None, w1) =>
      ({| data := ""; err := Some (gqlerror_Errorf unsupportedMsg) |},
       mutationFailed, w1)
  | (Some (res, succeeded), w1) =>
      let name := ResponseName (mutation mr) in
      let r := AsGQLErrors H (err res) (ext w1) in
      ({| data := wrapData name (data res);
          err := Some (GqlErrorList r.1) |}, succeeded,
       {| ext := {| backend := backend r.2;
                    heap := prefixPaths name r.1 (heap r.2) |};
          calls := calls w1 |})
  end.
Proof.
  unfold resolve, bind.
  destruct (dispatch H mr w) as [[[res ok]|] w1]; [|done].
  unfold local, prefixErrors, ret; simpl.
  by destruct (AsGQLErrors H (err res) (ext w1)).
Qed.

(** [resolveMutation] when the rewrite fails. *)
Lemma resolveMutation_rewrite_fails (mr : Resolver) (w : W) e x :
  Rewrite (mutationRewriter mr) (mutation mr) (ext w) = (inr e, x) ->
  (resolveMutation H mr w).1.2 = mutationFailed /\
  data (resolveMutation H mr w).1.1 = "" /\
  calls (resolveMutation H mr w).2 = calls w.
Proof.
  intros Hrw. unfold resolveMutation, bind, local, ret. rewrite Hrw.
  simpl. by destruct (GQLWrapf _ _ _ _ _).
Qed.

(** [resolveMutation] when the rewrite succeeds and [Mutate] fails. *)
Lemma resolveMutation_mutate_fails (mr : Resolver) (w : W) mut x e x' :
  Rewrite (mutationRewriter mr) (mutation mr) (ext w) = (inl mut, x) ->
  Mutate (dgraph mr) mut x = (inr e, x') ->
  (resolveMutation H mr w).1.2 = mutationFailed /\
  data (resolveMutation H mr w).1.1 = "" /\
  calls (resolveMutation H mr w).2 = (calls w ++ [CallMutate mut])%list.
Proof.
  intros Hrw Hmu. unfold resolveMutation, bind, local, client, ret.
  rewrite Hrw. simpl. rewrite Hmu. simpl.
  by destruct (GQLWrapLocationf _ _ _ _ _ _).
Qed.

(** [resolveMutation] when the write went through and the follow-up query
    cannot be built, or cannot be run. *)
Lemma resolveMutation_from_result_fails (mr : Resolver) (w : W)
    mut x1 assigned x2 e x3 :
  Rewrite (mutationRewriter mr) (mutation mr) (ext w) = (inl mut, x1) ->
  Mutate (dgraph mr) mut x1 = (inl assigned, x2) ->
  FromMutationResult (queryRewriter mr) (mutation mr) assigned x2
    = (inr e, x3) ->
  resolveMutation H mr w =
  let g := GQLWrapf H (Some e) "couldn't rewrite mutation %s"
             [Name (mutation mr)] x3 in
  ({| data := ""; err := g.1 |}, mutationSucceeded,
   {| ext := g.2; calls := (calls w ++ [CallMutate mut])%list |}).
Proof.
  intros Hrw Hmu Hq. unfold resolveMutation, bind, local, client, ret.
  rewrite Hrw. simpl. rewrite Hmu. simpl. rewrite Hq. simpl.
  by destruct (GQLWrapf _ _ _ _ _).
Qed.

Lemma resolveMutation_query_fails (mr : Resolver) (w : W)
    mut x1 assigned x2 q x3 e x4 :
  Rewrite (mutationRewriter mr) (mutation mr) (ext w) = (inl mut, x1) ->
  Mutate (dgraph mr) mut x1 = (inl assigned, x2) ->
  FromMutationResult (queryRewriter mr) (mutation mr) assigned x2
    = (inl q, x3) ->
  Query (dgraph mr) q x3 = (inr e, x4) ->
  resolveMutation H mr w =
  let g := GQLWrapf H (Some e) "mutation %s created a node but query failed"
             [Name (mutation mr)] x4 in
  ({| data := ""; err := g.1 |}, mutationSucceeded,
   {| ext := g.2;
      calls := ((calls w ++ [CallMutate mut]) ++ [CallQuery q])%list |}).
Proof.
  intros Hrw Hmu Hq Hr. unfold resolveMutation, bind, local, client, ret.
  rewrite Hrw. simpl. rewrite Hmu. simpl. rewrite Hq. simpl.
  rewrite Hr. simpl. by destruct (GQLWrapf _ _ _ _ _).
Qed.

Lemma resolveDeleteMutation_success (mr : Resolver) (w : W) q mut x1 x2 :
  RewriteDelete (mutationRewriter mr) (mutation mr) (ext w)
    = (inl (q, mut), x1) ->
  DeleteNodes (dgraph mr) q mut x1 = (None, x2) ->
  resolveDeleteMutation H mr w =
  ({| data := deletedMsg; err := None |}, mutationSucceeded,
   {| ext := x2; calls := (calls w ++ [CallDeleteNodes q mut])%list |}).
Proof.
  intros Hrw Hdel. unfold resolveDeleteMutation, bind, local, client, ret.
  rewrite Hrw. simpl. by rewrite Hdel.
Qed.

(** The literal of the delete acknowledgment, byte by byte. *)
Lemma deletedMsg_bytes :
  nat_of_ascii <$> list_ascii_of_string deletedMsg =
  [123; 32; 34; 109; 115; 103; 34; 58; 32; 34;
   68; 101; 108; 101; 116; 101; 100; 34; 32; 125].
Proof. reflexivity. Qed.

(** ** The properties *)

(** C1 (as amended). For an Add, Update or Delete mutation, the data that
    [resolve] returns is the data of the kind's pipeline wrapped once: a
    quote, the response name, a quote, a colon and a space, then the
    fragment, or [null] when the pipeline produced no data; the success flag
    is the pipeline's. For any other kind [resolve] returns at once, with
    empty data that is not wrapped, the fixed error and [false]. *)
Theorem resolve_wraps_data_of_supported_kinds (mr : Resolver) (w : W) :
  match MutationKind (mutation mr) with
  | OtherMutation _ =>
      resolve H mr w =
      ({| data := ""; err := Some (gqlerror_Errorf unsupportedMsg) |},
       false, w)
  | k =>
      let inner :=
        match k with
        | DeleteMutation => resolveDeleteMutation H mr w
        | _ => resolveMutation H mr w
        end in
      data (resolve H mr w).1.1 =
        String dquote (ResponseName (mutation mr) +:+ String dquote
          (": " +:+ (if decide (data inner.1.1 = "") then "null"
                     else data inner.1.1)))
      /\ (resolve H mr w).1.2 = inner.1.2
  end.
Proof.
  rewrite resolve_spec, dispatch_spec.
  destruct (MutationKind (mutation mr)); try done.
  - destruct (resolveMutation H mr w) as [[res ok] w1]; simpl.
    by rewrite wrapData_spec.
  - destruct (resolveMutation H mr w) as [[res ok] w1]; simpl.
    by rewrite wrapData_spec.
  - destruct (resolveDeleteMutation H mr w) as [[res ok] w1]; simpl.
    by rewrite wrapData_spec.
Qed.

(** C2. For an Add or Update mutation, when the rewrite fails, or the
    rewrite succeeds and [Mutate] fails, [resolve] returns [false], the
    pipeline's data is empty, and the data returned is the response name in
    quotes, a colon, a space and [null]. *)
Theorem resolve_write_failure (mr : Resolver) (w : W) :
  MutationKind (mutation mr) = AddMutation \/
  MutationKind (mutation mr) = UpdateMutation ->
  (exists e x,
     Rewrite (mutationRewriter mr) (mutation mr) (ext w) = (inr e, x)) \/
  (exists mut x e x',
     Rewrite (mutationRewriter mr) (mutation mr) (ext w) = (inl mut, x) /\
     Mutate (dgraph mr) mut x = (inr e, x')) ->
  (resolve H mr w).1.2 = false /\
  data (resolveMutation H mr w).1.1 = "" /\
  data (resolve H mr w).1.1 =
    String dquote (ResponseName (mutation mr) +:+ String dquote ": null").
Proof.
  intros Hkind Hfail.
  assert ((resolveMutation H mr w).1.2 = false /\
          data (resolveMutation H mr w).1.1 = "") as [Hok Hdata].
  { destruct Hfail as [(e & x & Hrw)|(mut & x & e & x' & Hrw & Hmu)].
    - by destruct (resolveMutation_rewrite_fails mr w e x Hrw) as (? & ? & _).
    - by destruct (resolveMutation_mutate_fails mr w mut x e x' Hrw Hmu)
        as (? & ? & _). }
  rewrite resolve_spec, dispatch_spec.
  destruct (resolveMutation H mr w) as [[res ok] w1]; simpl in *.
  destruct Hkind as [-> | ->]; simpl; by rewrite Hdata.
Qed.

(** C3. For an Add or Update mutation whose rewrite and [Mutate] succeed,
    when the follow-up query cannot be built ([FromMutationResult] fails)
    or cannot be run ([Query] fails), [resolve] returns [true] and a
    non-empty error list, provided the helpers of package [schema] turn a
    wrapped non-nil error into at least one error. *)
Theorem resolve_readback_failure (mr : Resolver) (w : W) mut x1 assigned x2 :
  MutationKind (mutation mr) = AddMutation \/
  MutationKind (mutation mr) = UpdateMutation ->
  (forall e fmt args x,
     (AsGQLErrors H (GQLWrapf H (Some e) fmt args x).1
                    (GQLWrapf H (Some e) fmt args x).2).1 <> []) ->
  Rewrite (mutationRewriter mr) (mutation mr) (ext w) = (inl mut, x1) ->
  Mutate (dgraph mr) mut x1 = (inl assigned, x2) ->
  (exists e x3,
     FromMutationResult (queryRewriter mr) (mutation mr) assigned x2
       = (inr e, x3)) \/
  (exists q x3 e x4,
     FromMutationResult (queryRewriter mr) (mutation mr) assigned x2
       = (inl q, x3) /\
     Query (dgraph mr) q x3 = (inr e, x4)) ->
  (resolve H mr w).1.2 = true /\
  exists errs,
    err (resolve H mr w).1.1 = Some (GqlErrorList errs) /\ errs <> [].
Proof.
  intros Hkind Hwrap Hrw Hmu Hfail.
  assert (exists e fmt args x cs,
    resolveMutation H mr w =
    ({| data := ""; err := (GQLWrapf H (Some e) fmt args x).1 |}, true,
     {| ext := (GQLWrapf H (Some e) fmt args x).2; calls := cs |}))
    as (e & fmt & args & x & cs & Hres).
  { destruct Hfail as [(e & x3 & Hq)|(q & x3 & e & x4 & Hq & Hr)].
    - rewrite (resolveMutation_from_result_fails mr w _ _ _ _ _ _ Hrw Hmu Hq).
      by eexists _, _, _, _, _.
    - rewrite (resolveMutation_query_fails mr w _ _ _ _ _ _ _ _ Hrw Hmu Hq Hr).
      by eexists _, _, _, _, _. }
  rewrite resolve_spec, dispatch_spec.
  destruct Hkind as [-> | ->]; rewrite Hres; simpl;
    (split; [done | eexists; split; [done | apply Hwrap]]).
Qed.

(** C4. Every error of the list that [resolve] returns has an empty path
    or a path whose first element is the response name. Reading the list
    that [AsGQLErrors] hands to the loop, in the heap as it is then: an
    object with an empty path keeps it, and an object with a non-empty
    path receives the response name in front, once for each entry of the
    list that points to it. *)
Theorem resolve_error_paths (mr : Resolver) (w : W) :
  (forall path,
     path ∈ errorPaths (heap (ext (resolve H mr w).2))
                       (err (resolve H mr w).1.1) ->
     path = [] \/
     head path = Some (PathName (ResponseName (mutation mr))))
  /\ match dispatch H mr w with
     | (None, _) => True
     | (Some (res, _), w1) =>
         let r := AsGQLErrors H (err res) (ext w1) in
         err (resolve H mr w).1.1 = Some (GqlErrorList r.1) /\
         forall p, p ∈ r.1 ->
           Path (heap (ext (resolve H mr w).2) p) =
           (if decide (Path (heap r.2 p) = []) then []
            else replicate (count_occ Nat.eq_dec r.1 p)
                   (PathName (ResponseName (mutation mr)))
                 ++ Path (heap r.2 p))%list
     end.
Proof.
  rewrite resolve_spec.
  destruct (dispatch H mr w) as [[[res ok]|] w1]; simpl.
  - split.
    + intros path Hin. apply list_elem_of_fmap in Hin as (p & -> & Hp).
      destruct (Path (heap (AsGQLErrors H (err res) (ext w1)).2 p)) eqn:E.
      * left. destruct (prefixPaths_spec (ResponseName (mutation mr))
          (AsGQLErrors H (err res) (ext w1)).1
          (heap (AsGQLErrors H (err res) (ext w1)).2) p) as [-> _].
        by rewrite E.
      * right. apply prefixPaths_head; [done | by rewrite E].
    + split; [done |]. intros p _. apply prefixPaths_spec.
  - split; [|done]. intros path Hin.
    apply list_elem_of_singleton in Hin. by left.
Qed.

(** C5. When the rewrite of a Delete mutation and [DeleteNodes] both
    succeed, [resolve] returns [true], the pipeline's data is the literal
    acknowledgment and the data returned is that literal under the response
    name; the only call on the backend client is the one to [DeleteNodes]
    (no query is run), and the error list is empty, provided [AsGQLErrors]
    gives no error for a nil error. *)
Theorem resolve_delete_success (mr : Resolver) (w : W) q mut x1 x2 :
  MutationKind (mutation mr) = DeleteMutation ->
  (forall x, (AsGQLErrors H None x).1 = []) ->
  RewriteDelete (mutationRewriter mr) (mutation mr) (ext w)
    = (inl (q, mut), x1) ->
  DeleteNodes (dgraph mr) q mut x1 = (None, x2) ->
  (resolve H mr w).1.2 = true /\
  data (resolveDeleteMutation H mr w).1.1 = deletedMsg /\
  data (resolve H mr w).1.1 =
    String dquote (ResponseName (mutation mr) +:+ String dquote
      (": " +:+ deletedMsg)) /\
  err (resolve H mr w).1.1 = Some (GqlErrorList []) /\
  calls (resolve H mr w).2 = (calls w ++ [CallDeleteNodes q mut])%list.
Proof.
  intros Hkind Hnil Hrw Hdel.
  rewrite resolve_spec, dispatch_spec, Hkind.
  rewrite (resolveDeleteMutation_success mr w q mut x1 x2 Hrw Hdel). simpl.
  by rewrite Hnil.
Qed.

End ResolveProperties.

(** ** The properties on the scripted backend *)

(** An Add mutation whose rewrite fails, on the scripted backend. *)
Lemma resolve_write_failure_witness :
  (Resolve.resolve Resolve.Scripted.helpers
     (Resolve.Scripted.resolver Resolve.Scripted.rewriteBroken
        Resolve.AddMutation) Resolve.Scripted.w0).1.2 = false /\
  Resolve.data (Resolve.resolveMutation Resolve.Scripted.helpers
     (Resolve.Scripted.resolver Resolve.Scripted.rewriteBroken
        Resolve.AddMutation) Resolve.Scripted.w0).1.1 = "" /\
  Resolve.data (Resolve.resolve Resolve.Scripted.helpers
     (Resolve.Scripted.resolver Resolve.Scripted.rewriteBroken
        Resolve.AddMutation) Resolve.Scripted.w0).1.1 =
    String dquote ("addUser" +:+ String dquote ": null").
Proof.
  apply (resolve_write_failure Resolve.Scripted.helpers
           (Resolve.Scripted.resolver Resolve.Scripted.rewriteBroken
              Resolve.AddMutation) Resolve.Scripted.w0).
  - left. reflexivity.
  - left. eexists _, _. reflexivity.
Defined.

(** An Update mutation whose follow-up query fails, on the scripted
    backend. *)
Lemma resolve_readback_failure_witness :
  (Resolve.resolve Resolve.Scripted.helpers
     (Resolve.Scripted.resolver Resolve.Scripted.queryBroken
        Resolve.UpdateMutation) Resolve.Scripted.w0).1.2 = true /\
  exists errs,
    Resolve.err (Resolve.resolve Resolve.Scripted.helpers
      (Resolve.Scripted.resolver Resolve.Scripted.queryBroken
         Resolve.UpdateMutation) Resolve.Scripted.w0).1.1
      = Some (Resolve.GqlErrorList errs) /\ errs <> [].
Proof.
  eapply (resolve_readback_failure Resolve.Scripted.helpers
            (Resolve.Scripted.resolver Resolve.Scripted.queryBroken
               Resolve.UpdateMutation) Resolve.Scripted.w0).
  - right. reflexivity.
  - intros e fmt args x. simpl. discriminate.
  - reflexivity.
  - reflexivity.
  - right. eexists _, _, _, _. split; reflexivity.
Defined.

(** An Add mutation whose completer reports object 1 twice and object 2
    once: the path of object 1 receives the name twice, the empty path of
    object 2 stays empty. *)
Lemma resolve_error_paths_witness :
  Resolve.Path
    (Resolve.heap (Resolve.ext (Resolve.resolve Resolve.Scripted.helpers
       (Resolve.Scripted.resolver Resolve.Scripted.allGood
          Resolve.AddMutation) Resolve.Scripted.w0).2) 1) =
    [Resolve.PathName "addUser"; Resolve.PathName "addUser";
     Resolve.PathName "user"; Resolve.PathIndex 0] /\
  Resolve.Path
    (Resolve.heap (Resolve.ext (Resolve.resolve Resolve.Scripted.helpers
       (Resolve.Scripted.resolver Resolve.Scripted.allGood
          Resolve.AddMutation) Resolve.Scripted.w0).2) 2) = [].
Proof.
  pose proof (resolve_error_paths Resolve.Scripted.helpers
                (Resolve.Scripted.resolver Resolve.Scripted.allGood
                   Resolve.AddMutation) Resolve.Scripted.w0) as [_ Hloop].
  simpl in Hloop. destruct Hloop as [_ Hloop]. split.
  - apply (Hloop 1). apply list_elem_of_here.
  - apply (Hloop 2). apply list_elem_of_further, list_elem_of_here.
Defined.

(** A Delete mutation that succeeds, on the scripted backend. *)
Lemma resolve_delete_success_witness :
  (Resolve.resolve Resolve.Scripted.helpers
     (Resolve.Scripted.resolver Resolve.Scripted.allGood
        Resolve.DeleteMutation) Resolve.Scripted.w0).1.2 = true /\
  Resolve.data (Resolve.resolveDeleteMutation Resolve.Scripted.helpers
     (Resolve.Scripted.resolver Resolve.Scripted.allGood
        Resolve.DeleteMutation) Resolve.Scripted.w0).1.1
    = Resolve.deletedMsg /\
  Resolve.data (Resolve.resolve Resolve.Scripted.helpers
     (Resolve.Scripted.resolver Resolve.Scripted.allGood
        Resolve.DeleteMutation) Resolve.Scripted.w0).1.1 =
    String dquote ("addUser" +:+ String dquote
      (": " +:+ Resolve.deletedMsg)) /\
  Resolve.err (Resolve.resolve Resolve.Scripted.helpers
     (Resolve.Scripted.resolver Resolve.Scripted.allGood
        Resolve.DeleteMutation) Resolve.Scripted.w0).1.1
    = Some (Resolve.GqlErrorList []) /\
  Resolve.calls (Resolve.resolve Resolve.Scripted.helpers
     (Resolve.Scripted.resolver Resolve.Scripted.allGood
        Resolve.DeleteMutation) Resolve.Scripted.w0).2 =
    [Resolve.CallDeleteNodes "query addUser" "delete addUser"].
Proof.
  apply (resolve_delete_success Resolve.Scripted.helpers
           (Resolve.Scripted.resolver Resolve.Scripted.allGood
              Resolve.DeleteMutation) Resolve.Scripted.w0
           "query addUser" "delete addUser"
           (Resolve.ext Resolve.Scripted.w0)
           (Resolve.Scripted.apply "delete addUser"
              (Resolve.ext Resolve.Scripted.w0))).
  - reflexivity.
  - intros x. reflexivity.
  - reflexivity.
  - reflexivity.
Defined.

(** C1 as stated fails for a kind outside add, update and delete: the data
    returned for such a mutation is empty, so it is not the response name
    in quotes followed by a colon and a fragment. *)
Lemma resolve_unsupported_kind_not_wrapped :
  Resolve.data (Resolve.resolve Resolve.Scripted.helpers
     (Resolve.Scripted.resolver Resolve.Scripted.allGood
        (Resolve.OtherMutation "subscribe")) Resolve.Scripted.w0).1.1 = ""
  /\ ~ exists fragment,
       Resolve.data (Resolve.resolve Resolve.Scripted.helpers
         (Resolve.Scripted.resolver Resolve.Scripted.allGood
            (Resolve.OtherMutation "subscribe")) Resolve.Scripted.w0).1.1 =
       String dquote
         (Resolve.ResponseName (Resolve.Scripted.mut
                                  (Resolve.OtherMutation "subscribe"))
          +:+ String dquote (": " +:+ fragment)).
Proof.
  split; [reflexivity |]. intros [fragment Hfrag]. discriminate Hfrag.
Qed.

(** * Properties of the Kafka consumer and producer *)
Section EdgraphProperties.
Import Edgraph.
Variable env : Env.

Lemma world_eta (w : World) : {| trace := trace w; chans := chans w |} = w.
Proof. by destruct w. Qed.

Lemma bind_emit {A B} (f : list Event -> A * Event) (k : A -> M B) w :
  bind (emit f) k w =
  k (f (trace w)).1
    {| trace := trace w ++ [(f (trace w)).2]; chans := chans w |}.
Proof. unfold bind, emit. by destruct (f (trace w)). Qed.

Lemma bind_ret {A B} (a : A) (k : A -> M B) w : bind (ret a) k w = k a w.
Proof. reflexivity. Qed.

(** ** The per-claim loop *)

Lemma setAll_spec l kvs : forall w,
  setAll env l kvs w =
  (Returned tt,
   {| trace := trace w ++ setEvents env l kvs (trace w); chans := chans w |}).
Proof.
  induction kvs as [|kv rest IH]; intros w; simpl.
  - unfold ret. by rewrite app_nil_r, world_eta.
  - unfold loader_Set. rewrite bind_emit, IH. simpl.
    by rewrite <- app_assoc.
Qed.



(** One message that decodes: the loop goes on after the events of its
    batch. *)
Lemma ConsumeClaim_step message rest list w :
  Unmarshal env (MsgValue message) = inl list ->
  ConsumeClaim env (message :: rest) w =
  ConsumeClaim env rest
    {| trace := trace w ++ batchEvents env message list (trace w);
       chans := chans w |}.
Proof.
  intros Hdec. simpl. rewrite Hdec.
  unfold NewLoader. rewrite bind_emit. simpl.
  unfold bind at 1. rewrite setAll_spec. simpl.
  unfold loader_Finish. rewrite bind_emit. simpl.
  unfold glog. rewrite bind_emit. simpl.
  unfold MarkMessage. rewrite bind_emit. simpl.
  unfold batchEvents. rewrite <- !app_assoc. reflexivity.
Qed.

(** One message that does not decode: the error is logged and returned,
    nothing is loaded or marked, and the rest of the claim is not read. *)
Lemma ConsumeClaim_unmarshal_error message rest e w :
  Unmarshal env (MsgValue message) = inr e ->
  ConsumeClaim env (message :: rest) w =
  (Returned (Some e),
   {| trace := trace w ++
        [EvLog ERROR "error while unmarshaling from consumed message: %v"
           [ArgErr e]];
      chans := chans w |}).
Proof. intros Hdec. simpl. rewrite Hdec. unfold glog. by rewrite bind_emit. Qed.

(** The loop never panics and leaves the channels alone. *)
Lemma ConsumeClaim_returns messages : forall w,
  exists r tr,
    ConsumeClaim env messages w =
    (Returned r, {| trace := trace w ++ tr; chans := chans w |}).
Proof.
  induction messages as [|m rest IH]; intros w.
  - exists None, []. simpl. unfold ret. by rewrite app_nil_r, world_eta.
  - destruct (Unmarshal env (MsgValue m)) as [list|e] eqn:Hdec.
    + rewrite (ConsumeClaim_step _ _ _ _ Hdec).
      destruct (IH {| trace := trace w ++ batchEvents env m list (trace w);
                      chans := chans w |}) as (r & tr & ->).
      simpl. eexists r, _. by rewrite <- app_assoc.
    + rewrite (ConsumeClaim_unmarshal_error _ _ _ _ Hdec). by eexists _, _.
Qed.

(** The messages that [ConsumeClaim] marks are those before the first
    message that does not decode, each one once and in order: a message
    that cannot be decoded is not marked, and no message after it is. *)
Lemma marked_setEvents l kvs : forall tr, marked (setEvents env l kvs tr) = [].
Proof. induction kvs as [|kv rest IH]; intros tr; [done | apply IH]. Qed.

Lemma marked_batchEvents message batch tr :
  marked (batchEvents env message batch tr) = [message].
Proof.
  unfold batchEvents, marked. simpl. rewrite omap_app.
  fold (marked (setEvents env (nextLoader tr) (Kv batch)
                  (tr ++ [EvNewLoader (nextLoader tr) 16]))).
  by rewrite marked_setEvents.
Qed.

Lemma ConsumeClaim_marked messages : forall w,
  marked (trace (ConsumeClaim env messages w).2) =
  (marked (trace w) ++ decodablePrefix env messages)%list.
Proof.
  induction messages as [|m rest IH]; intros w.
  - simpl. by rewrite app_nil_r.
  - simpl decodablePrefix.
    destruct (Unmarshal env (MsgValue m)) as [batch|e] eqn:Hdec.
    + rewrite (ConsumeClaim_step _ _ _ _ Hdec), IH. simpl.
      unfold marked at 1. rewrite omap_app.
      fold (marked (trace w)). fold (marked (batchEvents env m batch (trace w))).
      by rewrite marked_batchEvents, <- app_assoc.
    + rewrite (ConsumeClaim_unmarshal_error _ _ _ _ Hdec). simpl.
      unfold marked. by rewrite omap_app.
Qed.

(** ** Reading the storage off a trace *)




(** ** The consumer: loading and marking *)


(** C6, on the code: [ConsumeClaim] does not look at what [Finish]
    returns. For a message that decodes, when [Finish] reports an error
    the message is marked all the same, after that [Finish]. *)
Theorem ConsumeClaim_marks_after_failed_load message batch w e :
  Unmarshal env (MsgValue message) = inl batch ->
  (forall tr l, LoaderFinish env tr l = Some e) ->
  exists sets logged,
    ConsumeClaim env [message] w =
    (Returned None,
     {| trace := trace w ++
          EvNewLoader (nextLoader (trace w)) 16 :: sets ++
          [EvFinish (nextLoader (trace w)) (Some e); logged;
           EvMarkMessage message ""];
        chans := chans w |}).
Proof.
  intros Hdec Hfin. rewrite (ConsumeClaim_step _ _ _ _ Hdec).
  unfold batchEvents. rewrite Hfin. by eexists _, _.
Qed.

(** ** The producer callback *)

(** A batch that does not serialize is logged and dropped: nothing is
    sent. *)
Lemma cb_marshal_error producer batch e w :
  Marshal env batch = inr e ->
  cb env producer batch w =
  (Returned tt,
   {| trace := trace w ++
        [EvLog ERROR "unable to marshal the kv list: %+v" [ArgErr e]];
      chans := chans w |}).
Proof. intros Hm. unfold cb. by rewrite Hm. Qed.

(** A batch that serializes is sent once, to [kafkaTopic]; then the
    verbose line is logged, whatever [SendMessage] returned. *)
Lemma cb_sends_once p batch bytes w :
  Marshal env batch = inl bytes ->
  let msg := {| Topic := kafkaTopic env; PValue := bytes |} in
  cb env (Some p) batch w =
  (Returned tt,
   {| trace := trace w ++
        [EvSendMessage p msg (SendMessage env (trace w) p msg);
         EvLog (VINFO 1) "produced a list with %d messages to kafka"
           [ArgInt (Z.of_nat (length (Kv batch)))]];
      chans := chans w |}).
Proof.
  intros Hm msg. unfold cb. rewrite Hm.
  unfold producer_SendMessage. rewrite bind_emit. simpl.
  unfold glog, emit. simpl. by rewrite <- app_assoc.
Qed.

(** C9, on the code: when the batch serializes and [SendMessage] returns
    an error, the callback has sent one message and logged one line, the
    verbose line that says the list was produced; the error is in no log
    line, and nothing is sent again. *)
Theorem cb_drops_delivery_error p batch bytes e w :
  Marshal env batch = inl bytes ->
  SendMessage env (trace w) p {| Topic := kafkaTopic env; PValue := bytes |}
    = Some e ->
  cb env (Some p) batch w =
  (Returned tt,
   {| trace := trace w ++
        [EvSendMessage p {| Topic := kafkaTopic env; PValue := bytes |}
           (Some e);
         EvLog (VINFO 1) "produced a list with %d messages to kafka"
           [ArgInt (Z.of_nat (length (Kv batch)))]];
      chans := chans w |}).
Proof.
  intros Hm Hsend. rewrite (cb_sends_once p batch bytes w Hm). simpl.
  by rewrite Hsend.
Qed.

(** ** Bootstrap: the retry loop *)

Lemma count_app P tr1 tr2 :
  count P (tr1 ++ tr2) = count P tr1 + count P tr2.
Proof. unfold count. by rewrite filter_app, length_app. Qed.

Section Retry.
Context {C : Type}.
Variable f : list Event -> (C + error) * Event.
Variable P : Event -> bool.
Variable complaint : string.
Hypothesis f_counted : forall tr, P (f tr).2 = true.
Hypothesis log_not_counted : forall sev fmt args, P (EvLog sev fmt args) = false.
Hypothesis sleep_not_counted : forall d, P (EvSleep d) = false.

(** One failed attempt: the call, the complaint and the sleep. *)
Lemma retryLoop_failed_attempt k cur w e :
  (f (trace w)).1 = inr e ->
  retryLoop (emit f) complaint (Datatypes.S k) cur w =
  retryLoop (emit f) complaint k (None, Some e)
    {| trace := trace w ++
         [(f (trace w)).2; EvLog ERROR complaint [ArgErr e];
          EvSleep (5 * Second)];
       chans := chans w |}.
Proof.
  intros Hf. simpl. rewrite bind_emit, Hf.
  unfold glog. rewrite bind_emit. unfold Sleep. rewrite bind_emit. simpl.
  by rewrite <- !app_assoc.
Qed.



(** The loop always comes back, touches no channel, and does nothing but
    call the constructor, log and sleep. *)
Lemma retryLoop_returns n : forall cur w,
  exists r tr,
    retryLoop (emit f) complaint n cur w =
    (Returned r, {| trace := trace w ++ tr; chans := chans w |})
    /\ Forall (fun ev => P ev = true \/
                         (exists sev fmt args, ev = EvLog sev fmt args) \/
                         (exists d, ev = EvSleep d)) tr.
Proof.
  induction n as [|n IH]; intros cur w.
  - exists cur, []. simpl. unfold ret. by rewrite app_nil_r, world_eta.
  - destruct ((f (trace w)).1) as [c|e] eqn:Hf.
    + simpl. rewrite bind_emit, Hf. eexists _, _. split; [done |].
      constructor; [by left | constructor].
    + rewrite (retryLoop_failed_attempt n cur w e Hf).
      destruct (IH (None, Some e)
        {| trace := trace w ++ [(f (trace w)).2;
             EvLog ERROR complaint [ArgErr e]; EvSleep (5 * Second)];
           chans := chans w |}) as (r & tr & -> & Hall).
      simpl. eexists _, _. rewrite <- app_assoc. split; [done |].
      constructor; [by left |].
      constructor; [right; left; by eexists _, _, _ |].
      constructor; [right; right; by eexists | done].
Qed.




End Retry.

(** ** Bootstrap: the two setup functions *)

Lemma setupKafkaSource_spec brokers w :
  brokers <> "" ->
  setupKafkaSource env brokers w =
  let c := fresh (dom (chans w)) in
  let config := {| ConfigVersion := Some V2_2_0_0;
                   ProducerReturnSuccesses := false |} in
  match retryLoop
          (newConsumerGroup env (Split comma brokers) (kafkaGroup env) config)
          "unable to create the kafka consumer, will retry in 5 seconds: %v"
          10 (None, None)
          {| trace := trace w ++
               [EvLog INFO "source kafka brokers: %v" [ArgStr brokers]];
             chans := <[c := Open]> (chans w) |} with
  | (Returned (client, Some e), w') => (Panicked (PanicError e), w')
  | (Returned (client, None), w') =>
      (Returned (SourceAwaitingReady client {| ready := c |}),
       {| trace := trace w' ++ [EvGo "consume"]; chans := chans w' |})
  | (Panicked v, w') => (Panicked v, w')
  end.
Proof.
  intros Hne.
  assert ((0 <? String.length brokers)%nat = true) as Hlen
    by (by destruct brokers).
  unfold setupKafkaSource, glog. rewrite bind_emit.
  cbn [fst snd trace chans]. rewrite Hlen.
  unfold bind at 1. unfold makeChan at 1. cbn [trace chans NewConfig
    ProducerReturnSuccesses fst snd].
  unfold bind at 1.
  match goal with
  | |- context [retryLoop ?a ?b ?c ?d ?e] =>
      destruct (retryLoop a b c d e) as [[[client [e'|]]|v] w']
  end; done.
Qed.

Lemma setupKafkaTarget_spec brokers w :
  brokers <> "" ->
  setupKafkaTarget env brokers w =
  let conf := {| ConfigVersion := None; ProducerReturnSuccesses := true |} in
  match retryLoop
          (newSyncProducer env (Split comma brokers) conf)
          "unable to create the kafka sync producer, will retry in 5 seconds: %v"
          10 (None, None)
          {| trace := trace w ++
               [EvLog INFO "target kafka brokers: %v" [ArgStr brokers]];
             chans := chans w |} with
  | (Returned (producer, Some e), w') =>
      (Returned TargetDisabled,
       {| trace := trace w' ++
            [EvLog ERROR
               "unable to create the kafka sync producer, and will not publish updates"
               []];
          chans := chans w' |})
  | (Returned (producer, None), w') =>
      (Returned (TargetSubscribed producer),
       {| trace := trace w' ++
            [EvGo "subscribe";
             EvLog (VINFO 1) "subscribed to the pstore for updates" []];
          chans := chans w' |})
  | (Panicked v, w') => (Panicked v, w')
  end.
Proof.
  intros Hne.
  assert ((0 <? String.length brokers)%nat = true) as Hlen
    by (by destruct brokers).
  unfold setupKafkaTarget, glog. rewrite bind_emit.
  cbn [fst snd trace chans]. rewrite Hlen.
  cbn [NewConfig ConfigVersion]. unfold bind at 1.
  match goal with
  | |- context [retryLoop ?a ?b ?c ?d ?e] =>
      destruct (retryLoop a b c d e) as [[[producer [e'|]]|v] w']
  end; try done.
  cbn [fst snd]. rewrite !bind_emit. cbn [fst snd trace chans].
  unfold ret. by rewrite <- app_assoc.
Qed.



(** ** Sessions and the ready channel *)

Lemma Setup_open consumer w :
  chans w !! ready consumer = Some Open ->
  Setup consumer w =
  (Returned None,
   {| trace := trace w; chans := <[ready consumer := Closed]> (chans w) |}).
Proof. intros Hc. unfold Setup, bind, closeChan. by rewrite Hc. Qed.

Lemma Setup_closed consumer w :
  chans w !! ready consumer = Some Closed ->
  Setup consumer w = (Panicked (RuntimeError "close of closed channel"), w).
Proof. intros Hc. unfold Setup, bind, closeChan. by rewrite Hc. Qed.

Lemma consumeClaims_returns claims : forall w,
  exists tr,
    consumeClaims env claims w =
    (Returned tt, {| trace := trace w ++ tr; chans := chans w |}).
Proof.
  induction claims as [|claim rest IH]; intros w.
  - exists []. simpl. unfold ret. by rewrite app_nil_r, world_eta.
  - simpl. unfold bind at 1.
    destruct (ConsumeClaim_returns claim w) as (r & tr & ->).
    destruct (IH {| trace := trace w ++ tr; chans := chans w |})
      as (tr' & ->).
    simpl. eexists. by rewrite <- app_assoc.
Qed.

(** Calls of [Consume] that fail to join the group start no session: the
    loop logs each error and goes on, the channels as they were. *)
Lemma consumeLoop_join_failures consumer before rest :
  Forall (fun a => exists e, a = JoinFails e) before ->
  forall w, exists tr,
    consumeLoop env consumer (before ++ rest) w =
    consumeLoop env consumer rest
      {| trace := trace w ++ tr; chans := chans w |}.
Proof.
  induction 1 as [|a before [e ->] _ IH]; intros w.
  - exists []. simpl. by rewrite app_nil_r, world_eta.
  - simpl. rewrite bind_ret. unfold glog. rewrite bind_emit. simpl.
    destruct (IH {| trace := trace w ++
                      [EvLog ERROR "error while consuming from kafka: %v"
                         [ArgErr e]];
                    chans := chans w |}) as (tr & ->).
    simpl. eexists. by rewrite <- app_assoc.
Qed.

(** A session on an open [ready] channel closes it and runs to its end. *)
Lemma consumeLoop_first_session consumer claims result rest w :
  chans w !! ready consumer = Some Open ->
  exists tr,
    consumeLoop env consumer (Session claims result :: rest) w =
    consumeLoop env consumer rest
      {| trace := trace w ++ tr;
         chans := <[ready consumer := Closed]> (chans w) |}.
Proof.
  intros Hc. simpl. unfold bind at 1. unfold bind at 1. unfold bind at 1.
  rewrite (Setup_open _ _ Hc).
  destruct (consumeClaims_returns claims
    {| trace := trace w; chans := <[ready consumer := Closed]> (chans w) |})
    as (tr & Hcl).
  unfold bind at 1. rewrite Hcl. simpl.
  destruct result as [e|].
  - unfold glog. rewrite bind_emit. simpl. eexists.
    by rewrite <- app_assoc.
  - rewrite bind_ret. by eexists.
Qed.

(** A session on a closed [ready] channel panics in [Setup]. *)
Lemma consumeLoop_later_session consumer claims result rest w :
  chans w !! ready consumer = Some Closed ->
  consumeLoop env consumer (Session claims result :: rest) w =
  (Panicked (RuntimeError "close of closed channel"), w).
Proof.
  intros Hc. simpl. unfold bind at 1. unfold bind at 1. unfold bind at 1.
  by rewrite (Setup_closed _ _ Hc).
Qed.

(** [setupKafkaSource] hands out a consumer whose [ready] channel is
    open. *)
Lemma setupKafkaSource_ready_open brokers w client consumer w1 :
  setupKafkaSource env brokers w =
    (Returned (SourceAwaitingReady client consumer), w1) ->
  chans w1 !! ready consumer = Some Open.
Proof.
  intros Hsetup. destruct (decide (brokers = "")) as [->|Hne].
  { by vm_compute in Hsetup. }
  rewrite (setupKafkaSource_spec _ _ Hne) in Hsetup. cbv zeta in Hsetup.
  unfold newConsumerGroup in Hsetup.
  match type of Hsetup with
  | context [retryLoop (emit ?f) ?m ?n ?cur ?w0] =>
      destruct (retryLoop_returns f isNewConsumerGroup m ltac:(done) n cur w0)
        as ([cl [e|]] & tr & Heq & _); rewrite Heq in Hsetup
  end; [done |].
  injection Hsetup as _ <- <-. simpl. apply lookup_insert_eq.
Qed.

(** C10. A second [Setup] on the same consumer panics: once [Setup] has
    returned, the channel is closed and closing it again is a run-time
    error. The consumer that [setupKafkaSource] creates is handed to every
    call of [Consume] of the loop, so the second call that starts a
    session panics, whatever failed joins come before or in between. *)
Theorem second_session_panics (consumer : Consumer) (w : World) :
  (forall r w',
     Setup consumer w = (Returned r, w') ->
     Setup consumer w' =
       (Panicked (RuntimeError "close of closed channel"), w'))
  /\ (forall brokers client w1 before claims1 result1 between
             claims2 result2 rest,
        setupKafkaSource env brokers w =
          (Returned (SourceAwaitingReady client consumer), w1) ->
        Forall (fun a => exists e, a = JoinFails e) before ->
        Forall (fun a => exists e, a = JoinFails e) between ->
        (consumeLoop env consumer
           (before ++ Session claims1 result1 ::
            between ++ Session claims2 result2 :: rest) w1).1 =
        Panicked (RuntimeError "close of closed channel")).
Proof.
  split.
  - intros r w' Hs. unfold Setup, bind, closeChan in Hs.
    destruct (chans w !! ready consumer) as [[|]|] eqn:Hc; try done.
    injection Hs as _ <-. apply Setup_closed. simpl. apply lookup_insert_eq.
  - intros brokers client w1 before claims1 result1 between claims2 result2
      rest Hsetup Hbefore Hbetween.
    apply setupKafkaSource_ready_open in Hsetup.
    destruct (consumeLoop_join_failures consumer before
                (Session claims1 result1 ::
                 between ++ Session claims2 result2 :: rest) Hbefore w1)
      as (tr1 & ->).
    destruct (consumeLoop_first_session consumer claims1 result1
                (between ++ Session claims2 result2 :: rest)
                {| trace := trace w1 ++ tr1; chans := chans w1 |} Hsetup)
      as (tr2 & ->).
    cbn [trace chans].
    destruct (consumeLoop_join_failures consumer between
                (Session claims2 result2 :: rest) Hbetween
                {| trace := (trace w1 ++ tr1) ++ tr2;
                   chans := <[ready consumer := Closed]> (chans w1) |})
      as (tr3 & ->).
    rewrite consumeLoop_later_session; [done |].
    simpl. apply lookup_insert_eq.
Qed.

End EdgraphProperties.


(** ** The properties in the scripted environment *)


(** A loader whose [Finish] fails: the message is marked after it. *)
Lemma ConsumeClaim_marks_after_failed_load_witness :
  exists sets logged,
    Edgraph.ConsumeClaim (Edgraph.Scripted.env 0 true false)
      [Edgraph.Scripted.message "a=1;b=2;a=3"] Edgraph.Scripted.w0 =
    (Edgraph.Returned None,
     {| Edgraph.trace :=
          [] ++ Edgraph.EvNewLoader 0 16 :: sets ++
          [Edgraph.EvFinish 0 (Some "writes are blocked"); logged;
           Edgraph.EvMarkMessage
             (Edgraph.Scripted.message "a=1;b=2;a=3") ""];
        Edgraph.chans := ∅ |}).
Proof.
  exact (ConsumeClaim_marks_after_failed_load
           (Edgraph.Scripted.env 0 true false)
           (Edgraph.Scripted.message "a=1;b=2;a=3") Edgraph.Scripted.batch3
           Edgraph.Scripted.w0 "writes are blocked" eq_refl
           (fun _ _ => eq_refl)).
Defined.

(** A producer whose [SendMessage] fails: one send and the verbose line. *)
Lemma cb_drops_delivery_error_witness :
  Edgraph.cb (Edgraph.Scripted.env 0 false true) (Some 8)
    Edgraph.Scripted.batch3 Edgraph.Scripted.w0 =
  (Edgraph.Returned tt,
   {| Edgraph.trace :=
        [Edgraph.EvSendMessage 8
           {| Edgraph.Topic := "dgraph"; Edgraph.PValue := "a=1;b=2;a=3" |}
           (Some "kafka: message too large");
         Edgraph.EvLog (Edgraph.VINFO 1)
           "produced a list with %d messages to kafka" [Edgraph.ArgInt 3]];
      Edgraph.chans := ∅ |}).
Proof.
  exact (cb_drops_delivery_error (Edgraph.Scripted.env 0 false true) 8
           Edgraph.Scripted.batch3 "a=1;b=2;a=3" "kafka: message too large"
           Edgraph.Scripted.w0 eq_refl eq_refl).
Defined.


(** [Setup] twice on an open channel, and a consume loop with two
    sessions after [setupKafkaSource]. *)
Lemma second_session_panics_witness :
  Edgraph.Setup {| Edgraph.ready := 0 |}
    (Edgraph.Setup {| Edgraph.ready := 0 |} Edgraph.Scripted.wOpen).2 =
    (Edgraph.Panicked (Edgraph.RuntimeError "close of closed channel"),
     (Edgraph.Setup {| Edgraph.ready := 0 |} Edgraph.Scripted.wOpen).2) /\
  (Edgraph.consumeLoop (Edgraph.Scripted.env 0 false false)
     {| Edgraph.ready := 0 |}
     [Edgraph.JoinFails "kafka: no coordinator";
      Edgraph.Session [[Edgraph.Scripted.message "a=1"]] None;
      Edgraph.JoinFails "kafka: rebalance in progress";
      Edgraph.Session [] None]
     (Edgraph.setupKafkaSource (Edgraph.Scripted.env 0 false false)
        Edgraph.Scripted.brokers Edgraph.Scripted.w0).2).1 =
    Edgraph.Panicked (Edgraph.RuntimeError "close of closed channel").
Proof.
  split.
  - destruct (second_session_panics (Edgraph.Scripted.env 0 false false)
                {| Edgraph.ready := 0 |} Edgraph.Scripted.wOpen)
      as [Htwice _].
    apply (Htwice None). reflexivity.
  - destruct (second_session_panics (Edgraph.Scripted.env 0 false false)
                {| Edgraph.ready := 0 |} Edgraph.Scripted.w0)
      as [_ Hloop].
    apply (Hloop Edgraph.Scripted.brokers (Some 7) _
             [Edgraph.JoinFails "kafka: no coordinator"]
             [[Edgraph.Scripted.message "a=1"]] None
             [Edgraph.JoinFails "kafka: rebalance in progress"]
             [] None []).
    + reflexivity.
    + repeat constructor. by eexists.
    + repeat constructor. by eexists.
Defined.

(** * Further properties of the mutation resolver *)
Section ResolveCoverage.
Import Resolve.
Context {Field NativeMutation NativeQuery Assigned Response Backend : Type}.
Abbreviation Resolver :=
  (mutationResolver Field NativeMutation NativeQuery Assigned Response Backend)
  (only parsing).
Abbreviation W := (World NativeMutation NativeQuery Backend) (only parsing).
Variable H : Helpers Field Response Backend.

(** For an Add or Update, [resolve] hands on the flag and the call log of
    [resolveMutation]; for a Delete, those of [resolveDeleteMutation]. *)
Lemma resolve_of_resolveMutation (mr : Resolver) (w : W) :
  MutationKind (mutation mr) = AddMutation \/
  MutationKind (mutation mr) = UpdateMutation ->
  (resolve H mr w).1.2 = (resolveMutation H mr w).1.2 /\
  data (resolve H mr w).1.1 =
    wrapData (ResponseName (mutation mr)) (data (resolveMutation H mr w).1.1) /\
  calls (resolve H mr w).2 = calls (resolveMutation H mr w).2.
Proof.
  intros Hkind. rewrite resolve_spec, dispatch_spec.
  destruct (resolveMutation H mr w) as [[res ok] w1].
  by destruct Hkind as [-> | ->].
Qed.

Lemma resolve_of_resolveDeleteMutation (mr : Resolver) (w : W) :
  MutationKind (mutation mr) = DeleteMutation ->
  (resolve H mr w).1.2 = (resolveDeleteMutation H mr w).1.2 /\
  data (resolve H mr w).1.1 =
    wrapData (ResponseName (mutation mr))
      (data (resolveDeleteMutation H mr w).1.1) /\
  calls (resolve H mr w).2 = calls (resolveDeleteMutation H mr w).2.
Proof.
  intros Hkind. rewrite resolve_spec, dispatch_spec, Hkind.
  by destruct (resolveDeleteMutation H mr w) as [[res ok] w1].
Qed.

(** [resolveMutation] when all four collaborators succeed. *)
Lemma resolveMutation_success (mr : Resolver) (w : W)
    mut x1 assigned x2 q x3 resp x4 :
  Rewrite (mutationRewriter mr) (mutation mr) (ext w) = (inl mut, x1) ->
  Mutate (dgraph mr) mut x1 = (inl assigned, x2) ->
  FromMutationResult (queryRewriter mr) (mutation mr) assigned x2
    = (inl q, x3) ->
  Query (dgraph mr) q x3 = (inl resp, x4) ->
  resolveMutation H mr w =
  let c := completeDgraphResult H (QueryField (mutation mr)) resp x4 in
  ({| data := c.1.1; err := c.1.2 |}, mutationSucceeded,
   {| ext := c.2;
      calls := ((calls w ++ [CallMutate mut]) ++ [CallQuery q])%list |}).
Proof.
  intros Hrw Hmu Hq Hr. unfold resolveMutation, bind, local, client, ret.
  rewrite Hrw. simpl. rewrite Hmu. simpl. rewrite Hq. simpl.
  rewrite Hr. simpl. by destruct (completeDgraphResult _ _ _ _) as [[d e] x].
Qed.

(** Once [Mutate] has succeeded, [resolveMutation] returns [true],
    whatever the later steps do. *)
Lemma resolveMutation_written (mr : Resolver) (w : W) mut x1 assigned x2 :
  Rewrite (mutationRewriter mr) (mutation mr) (ext w) = (inl mut, x1) ->
  Mutate (dgraph mr) mut x1 = (inl assigned, x2) ->
  (resolveMutation H mr w).1.2 = true.
Proof.
  intros Hrw Hmu.
  destruct (FromMutationResult (queryRewriter mr) (mutation mr) assigned x2)
    as [[q|e] x3] eqn:Hq.
  - destruct (Query (dgraph mr) q x3) as [[resp|e] x4] eqn:Hr.
    + by rewrite (resolveMutation_success mr w _ _ _ _ _ _ _ _ Hrw Hmu Hq Hr).
    + by rewrite (resolveMutation_query_fails H mr w _ _ _ _ _ _ _ _
                    Hrw Hmu Hq Hr).
  - by rewrite (resolveMutation_from_result_fails H mr w _ _ _ _ _ _
                  Hrw Hmu Hq).
Qed.

(** [resolveDeleteMutation] when the rewrite fails, and when the rewrite
    succeeds and [DeleteNodes] fails. *)
Lemma resolveDeleteMutation_rewrite_fails (mr : Resolver) (w : W) e x :
  RewriteDelete (mutationRewriter mr) (mutation mr) (ext w) = (inr e, x) ->
  resolveDeleteMutation H mr w =
  let g := GQLWrapf H (Some e) "couldn't rewrite mutation" [] x in
  ({| data := ""; err := g.1 |}, mutationFailed,
   {| ext := g.2; calls := calls w |}).
Proof.
  intros Hrw. unfold resolveDeleteMutation, bind, local, ret.
  rewrite Hrw. simpl. by destruct (GQLWrapf _ _ _ _ _).
Qed.

Lemma resolveDeleteMutation_delete_fails (mr : Resolver) (w : W)
    q mut x1 e x2 :
  RewriteDelete (mutationRewriter mr) (mutation mr) (ext w)
    = (inl (q, mut), x1) ->
  DeleteNodes (dgraph mr) q mut x1 = (Some e, x2) ->
  resolveDeleteMutation H mr w =
  let g := GQLWrapf H (Some e) "mutation %s failed"
             [Name (mutation mr)] x2 in
  ({| data := ""; err := g.1 |}, mutationFailed,
   {| ext := g.2; calls := (calls w ++ [CallDeleteNodes q mut])%list |}).
Proof.
  intros Hrw Hdel. unfold resolveDeleteMutation, bind, local, client, ret.
  rewrite Hrw. simpl. rewrite Hdel. simpl. by destruct (GQLWrapf _ _ _ _ _).
Qed.

(** X1. When the rewrite, [Mutate], [FromMutationResult] and [Query] all
    succeed for an Add or Update, [resolve] returns [true]; its data is the
    completer's fragment under the response name ([null] when the fragment
    is empty); its errors are those of the completer, passed through
    [AsGQLErrors] and the path loop; and the client has been called twice,
    [Mutate] and then [Query]. *)
Theorem resolve_full_success (mr : Resolver) (w : W)
    mut x1 assigned x2 q x3 resp x4 :
  MutationKind (mutation mr) = AddMutation \/
  MutationKind (mutation mr) = UpdateMutation ->
  Rewrite (mutationRewriter mr) (mutation mr) (ext w) = (inl mut, x1) ->
  Mutate (dgraph mr) mut x1 = (inl assigned, x2) ->
  FromMutationResult (queryRewriter mr) (mutation mr) assigned x2
    = (inl q, x3) ->
  Query (dgraph mr) q x3 = (inl resp, x4) ->
  let c := completeDgraphResult H (QueryField (mutation mr)) resp x4 in
  let r := AsGQLErrors H c.1.2 c.2 in
  let name := ResponseName (mutation mr) in
  resolve H mr w =
  ({| data := String dquote (name +:+ String dquote
                (": " +:+ (if decide (c.1.1 = "") then "null" else c.1.1)));
      err := Some (GqlErrorList r.1) |},
   true,
   {| ext := {| backend := backend r.2;
                heap := prefixPaths name r.1 (heap r.2) |};
      calls := (calls w ++ [CallMutate mut; CallQuery q])%list |}).
Proof.
  intros Hkind Hrw Hmu Hq Hr c r name.
  rewrite resolve_spec, dispatch_spec.
  rewrite (resolveMutation_success mr w _ _ _ _ _ _ _ _ Hrw Hmu Hq Hr).
  destruct Hkind as [-> | ->]; simpl; rewrite wrapData_spec;
    by rewrite <- app_assoc.
Qed.

(** X2. For an Add or Update, the flag that [resolve] returns is [true]
    exactly when the rewrite and [Mutate] both succeeded: nothing that
    happens after the write turns it to [false], and nothing makes it
    [true] without the write. *)
Theorem resolve_flag_iff_written (mr : Resolver) (w : W) :
  MutationKind (mutation mr) = AddMutation \/
  MutationKind (mutation mr) = UpdateMutation ->
  (resolve H mr w).1.2 = true <->
  exists mut x1 assigned x2,
    Rewrite (mutationRewriter mr) (mutation mr) (ext w) = (inl mut, x1) /\
    Mutate (dgraph mr) mut x1 = (inl assigned, x2).
Proof.
  intros Hkind.
  destruct (resolve_of_resolveMutation mr w Hkind) as (-> & _ & _).
  destruct (Rewrite (mutationRewriter mr) (mutation mr) (ext w))
    as [[mut|e] x1] eqn:Hrw.
  - destruct (Mutate (dgraph mr) mut x1) as [[assigned|e] x2] eqn:Hmu.
    + rewrite (resolveMutation_written mr w _ _ _ _ Hrw Hmu).
      split; [intros _; by eexists _, _, _, _ | done].
    + destruct (resolveMutation_mutate_fails H mr w _ _ _ _ Hrw Hmu)
        as (-> & _ & _).
      split; [done |]. intros (mut' & x1' & a & x2' & Heq & Hmu').
      injection Heq as <- <-. by rewrite Hmu in Hmu'.
  - destruct (resolveMutation_rewrite_fails H mr w _ _ Hrw) as (-> & _ & _).
    split; [done |]. by intros (? & ? & ? & ? & ? & _).
Qed.

(** X3. A Delete answers in one of two ways only: [true] with the literal
    acknowledgment under the response name, when the rewrite and
    [DeleteNodes] both succeed; otherwise [false] with [null] under the
    response name. *)
Theorem resolve_delete_outcomes (mr : Resolver) (w : W) :
  MutationKind (mutation mr) = DeleteMutation ->
  let name := ResponseName (mutation mr) in
  ((resolve H mr w).1.2 = true <->
   exists q mut x1 x2,
     RewriteDelete (mutationRewriter mr) (mutation mr) (ext w)
       = (inl (q, mut), x1) /\
     DeleteNodes (dgraph mr) q mut x1 = (None, x2)) /\
  data (resolve H mr w).1.1 =
    String dquote (name +:+ String dquote
      (": " +:+ (if (resolve H mr w).1.2 then deletedMsg else "null"))).
Proof.
  intros Hkind name.
  destruct (resolve_of_resolveDeleteMutation mr w Hkind) as (-> & -> & _).
  rewrite wrapData_spec.
  destruct (RewriteDelete (mutationRewriter mr) (mutation mr) (ext w))
    as [[[q mut]|e] x1] eqn:Hrw.
  - destruct (DeleteNodes (dgraph mr) q mut x1) as [[e|] x2] eqn:Hdel.
    + rewrite (resolveDeleteMutation_delete_fails mr w _ _ _ _ _ Hrw Hdel).
      simpl. split; [|done]. split; [done |].
      intros (q' & mut' & x1' & x2' & Heq & Hdel').
      injection Heq as <- <- <-. by rewrite Hdel in Hdel'.
    + rewrite (resolveDeleteMutation_success H mr w _ _ _ _ Hrw Hdel).
      simpl. split; [|done]. split; [intros _; by eexists _, _, _, _ | done].
  - rewrite (resolveDeleteMutation_rewrite_fails mr w _ _ Hrw). simpl.
    split; [|done]. split; [done |]. by intros (? & ? & ? & ? & ? & _).
Qed.

(** The calls [resolveMutation] makes on the client, with its flag. *)
Lemma resolveMutation_calls (mr : Resolver) (w : W) :
  exists l,
    calls (resolveMutation H mr w).2 = (calls w ++ l)%list /\
    ((l = [] /\ (resolveMutation H mr w).1.2 = false) \/
     (exists mut, l = [CallMutate mut]) \/
     (exists mut q, l = [CallMutate mut; CallQuery q] /\
                    (resolveMutation H mr w).1.2 = true)).
Proof.
  destruct (Rewrite (mutationRewriter mr) (mutation mr) (ext w))
    as [[mut|e] x1] eqn:Hrw.
  - destruct (Mutate (dgraph mr) mut x1) as [[assigned|e] x2] eqn:Hmu.
    + destruct (FromMutationResult (queryRewriter mr) (mutation mr)
                  assigned x2) as [[q|e] x3] eqn:Hq.
      * exists [CallMutate mut; CallQuery q].
        destruct (Query (dgraph mr) q x3) as [[resp|e] x4] eqn:Hr.
        -- rewrite (resolveMutation_success mr w _ _ _ _ _ _ _ _
                      Hrw Hmu Hq Hr). simpl. rewrite <- app_assoc.
           split; [done |]. right. right. by eexists _, _.
        -- rewrite (resolveMutation_query_fails H mr w _ _ _ _ _ _ _ _
                      Hrw Hmu Hq Hr). simpl. rewrite <- app_assoc.
           split; [done |]. right. right. by eexists _, _.
      * exists [CallMutate mut].
        rewrite (resolveMutation_from_result_fails H mr w _ _ _ _ _ _
                   Hrw Hmu Hq). simpl.
        split; [done |]. right. left. by eexists.
    + exists [CallMutate mut].
      destruct (resolveMutation_mutate_fails H mr w _ _ _ _ Hrw Hmu)
        as (_ & _ & ->).
      split; [done |]. right. left. by eexists.
  - exists [].
    destruct (resolveMutation_rewrite_fails H mr w _ _ Hrw) as (-> & _ & ->).
    rewrite app_nil_r. split; [done |]. by left.
Qed.

Lemma resolveDeleteMutation_calls (mr : Resolver) (w : W) :
  exists l,
    calls (resolveDeleteMutation H mr w).2 = (calls w ++ l)%list /\
    ((l = [] /\ (resolveDeleteMutation H mr w).1.2 = false) \/
     (exists q mut, l = [CallDeleteNodes q mut])).
Proof.
  destruct (RewriteDelete (mutationRewriter mr) (mutation mr) (ext w))
    as [[[q mut]|e] x1] eqn:Hrw.
  - exists [CallDeleteNodes q mut].
    destruct (DeleteNodes (dgraph mr) q mut x1) as [[e|] x2] eqn:Hdel.
    + rewrite (resolveDeleteMutation_delete_fails mr w _ _ _ _ _ Hrw Hdel).
      simpl. split; [done |]. right. by eexists _, _.
    + rewrite (resolveDeleteMutation_success H mr w _ _ _ _ Hrw Hdel).
      simpl. split; [done |]. right. by eexists _, _.
  - exists []. rewrite (resolveDeleteMutation_rewrite_fails mr w _ _ Hrw).
    simpl. rewrite app_nil_r. split; [done |]. by left.
Qed.

(** X4. The calls that one [resolve] makes on the backend client: for an
    Add or Update none (and the flag is [false]), or one [Mutate], or one
    [Mutate] followed by one [Query] (and the flag is [true]); for a
    Delete none (and the flag is [false]) or one [DeleteNodes]; for any
    other kind none. So a query is only run after a write that succeeded,
    an Add or Update never deletes, and a Delete never mutates or
    queries. *)
Theorem resolve_client_calls (mr : Resolver) (w : W) :
  exists l,
    calls (resolve H mr w).2 = (calls w ++ l)%list /\
    match MutationKind (mutation mr) with
    | AddMutation | UpdateMutation =>
        (l = [] /\ (resolve H mr w).1.2 = false) \/
        (exists mut, l = [CallMutate mut]) \/
        (exists mut q, l = [CallMutate mut; CallQuery q] /\
                       (resolve H mr w).1.2 = true)
    | DeleteMutation =>
        (l = [] /\ (resolve H mr w).1.2 = false) \/
        (exists q mut, l = [CallDeleteNodes q mut])
    | OtherMutation _ => l = [] /\ (resolve H mr w).1.2 = false
    end.
Proof.
  destruct (MutationKind (mutation mr)) eqn:Hkind.
  - destruct (resolve_of_resolveMutation mr w (or_introl Hkind))
      as (-> & _ & ->). apply resolveMutation_calls.
  - destruct (resolve_of_resolveMutation mr w (or_intror Hkind))
      as (-> & _ & ->). apply resolveMutation_calls.
  - destruct (resolve_of_resolveDeleteMutation mr w Hkind) as (-> & _ & ->).
    apply resolveDeleteMutation_calls.
  - exists []. rewrite resolve_spec, dispatch_spec, Hkind. simpl.
    by rewrite app_nil_r.
Qed.

Lemma prefixPaths_not_listed name resErrs (h : Heap) (p : loc) :
  p ∉ resErrs -> prefixPaths name resErrs h p = h p.
Proof.
  intros Hnot. destruct (prefixPaths_spec name resErrs h p) as (Hp & Hm & Hl).
  assert (count_occ Nat.eq_dec resErrs p = 0) as Hzero.
  { apply count_occ_not_In. by rewrite <- list_elem_of_In. }
  rewrite Hzero in Hp. simpl in Hp.
  assert (Path (prefixPaths name resErrs h p) = Path (h p)) as Hp'.
  { rewrite Hp. destruct (decide (Path (h p) = [])) as [Hempty|];
      [by rewrite Hempty | done]. }
  destruct (prefixPaths name resErrs h p), (h p). simpl in *.
  by rewrite Hm, Hl, Hp'.
Qed.

(** X5. The post-processing of [resolve] changes nothing but paths of
    listed errors: after [AsGQLErrors], the backend is left as it is, every
    error object keeps its message and its locations, and an object that
    the error list does not point to is not changed at all. *)
Theorem resolve_changes_paths_only (mr : Resolver) (w : W) :
  match dispatch H mr w with
  | (None, w1) => (resolve H mr w).2 = w1
  | (Some (res, _), w1) =>
      let r := AsGQLErrors H (err res) (ext w1) in
      let final := ext (resolve H mr w).2 in
      backend final = backend r.2 /\
      forall p,
        Message (heap final p) = Message (heap r.2 p) /\
        Locations (heap final p) = Locations (heap r.2 p) /\
        (p ∉ r.1 -> heap final p = heap r.2 p)
  end.
Proof.
  rewrite resolve_spec.
  destruct (dispatch H mr w) as [[[res ok]|] w1]; simpl; [|done].
  split; [done |]. intros p.
  destruct (prefixPaths_spec (ResponseName (mutation mr))
              (AsGQLErrors H (err res) (ext w1)).1
              (heap (AsGQLErrors H (err res) (ext w1)).2) p) as (_ & Hm & Hl).
  split; [done |]. split; [done |]. apply prefixPaths_not_listed.
Qed.

(** X6. When the list of [AsGQLErrors] points to no object twice, every
    listed error with a non-empty path gets the response name in front
    exactly once, and a listed error with an empty path keeps it. *)
Theorem resolve_prefixes_once (mr : Resolver) (w : W) res ok w1 errs x2 :
  dispatch H mr w = (Some (res, ok), w1) ->
  AsGQLErrors H (err res) (ext w1) = (errs, x2) ->
  NoDup errs ->
  forall p, p ∈ errs ->
    Path (heap (ext (resolve H mr w).2) p) =
    if decide (Path (heap x2 p) = []) then []
    else PathName (ResponseName (mutation mr)) :: Path (heap x2 p).
Proof.
  intros Hd Has Hnodup p Hin. rewrite resolve_spec, Hd, Has. simpl.
  destruct (prefixPaths_spec (ResponseName (mutation mr)) errs (heap x2) p)
    as (-> & _ & _).
  destruct (decide (Path (heap x2 p) = [])); [done |].
  apply NoDup_ListNoDup in Hnodup.
  rewrite (proj1 (NoDup_count_occ' Nat.eq_dec errs) Hnodup p); [done |].
  by apply list_elem_of_In.
Qed.

End ResolveCoverage.

(** ** The further properties on the scripted backend *)

(** An Add whose four collaborators succeed: [Mutate], then [Query]. *)
Lemma resolve_full_success_witness :
  Resolve.calls (Resolve.resolve Resolve.Scripted.helpers
     (Resolve.Scripted.resolver Resolve.Scripted.allGood Resolve.AddMutation)
     Resolve.Scripted.w0).2 =
  [Resolve.CallMutate "set addUser"; Resolve.CallQuery "get addUser"].
Proof.
  rewrite (resolve_full_success Resolve.Scripted.helpers
             (Resolve.Scripted.resolver Resolve.Scripted.allGood
                Resolve.AddMutation) Resolve.Scripted.w0
             "set addUser" (Resolve.ext Resolve.Scripted.w0) ["0x1"]
             (Resolve.Scripted.apply "set addUser"
                (Resolve.ext Resolve.Scripted.w0))
             "get addUser"
             (Resolve.Scripted.apply "set addUser"
                (Resolve.ext Resolve.Scripted.w0))
             "result of get addUser"
             (Resolve.Scripted.apply "set addUser"
                (Resolve.ext Resolve.Scripted.w0))
             (or_introl eq_refl) eq_refl eq_refl eq_refl eq_refl).
  reflexivity.
Defined.

(** An Add whose [Mutate] fails: the flag is not [true]. *)
Lemma resolve_flag_iff_written_witness :
  (Resolve.resolve Resolve.Scripted.helpers
     (Resolve.Scripted.resolver Resolve.Scripted.mutateBroken
        Resolve.AddMutation) Resolve.Scripted.w0).1.2 <> true.
Proof.
  intros Htrue.
  apply (resolve_flag_iff_written Resolve.Scripted.helpers
           (Resolve.Scripted.resolver Resolve.Scripted.mutateBroken
              Resolve.AddMutation) Resolve.Scripted.w0 (or_introl eq_refl))
    in Htrue.
  destruct Htrue as (mut & x1 & assigned & x2 & Hrw & Hmu).
  injection Hrw as <- <-. discriminate Hmu.
Defined.

(** A Delete whose [DeleteNodes] fails: [null] under the response name. *)
Lemma resolve_delete_outcomes_witness :
  Resolve.data (Resolve.resolve Resolve.Scripted.helpers
     (Resolve.Scripted.resolver Resolve.Scripted.deleteBroken
        Resolve.DeleteMutation) Resolve.Scripted.w0).1.1 =
  String dquote ("addUser" +:+ String dquote ": null").
Proof.
  destruct (resolve_delete_outcomes Resolve.Scripted.helpers
              (Resolve.Scripted.resolver Resolve.Scripted.deleteBroken
                 Resolve.DeleteMutation) Resolve.Scripted.w0 eq_refl)
    as [_ Hdata].
  exact Hdata.
Defined.

(** An Add whose completer lists objects 1 and 2 once each: the path of
    object 1 gets the name once. *)
Lemma resolve_prefixes_once_witness :
  Resolve.Path
    (Resolve.heap (Resolve.ext (Resolve.resolve
       Resolve.Scripted.helpersDistinct
       (Resolve.Scripted.resolver Resolve.Scripted.allGood
          Resolve.AddMutation) Resolve.Scripted.w0).2) 1) =
  [Resolve.PathName "addUser"; Resolve.PathName "user"; Resolve.PathIndex 0].
Proof.
  assert (NoDup [1; 2]) as Hnodup by compute_done.
  exact (resolve_prefixes_once Resolve.Scripted.helpersDistinct
           (Resolve.Scripted.resolver Resolve.Scripted.allGood
              Resolve.AddMutation) Resolve.Scripted.w0
           {| Resolve.data := "{ }";
              Resolve.err := Some (Resolve.GqlErrorList [1; 2]) |}
           true
           {| Resolve.ext := Resolve.Scripted.apply "set addUser"
                               (Resolve.ext Resolve.Scripted.w0);
              Resolve.calls := [Resolve.CallMutate "set addUser";
                                Resolve.CallQuery "get addUser"] |}
           [1; 2]
           (Resolve.Scripted.apply "set addUser"
              (Resolve.ext Resolve.Scripted.w0))
           eq_refl eq_refl Hnodup 1 (list_elem_of_here 1 [2])).
Defined.

(** * Further properties of the Kafka consumer and producer *)
Section EdgraphCoverage.
Import Edgraph.
Variable env : Env.

(** ** The per-claim loop *)

Lemma ConsumeClaim_app_aux ms1 : forall ms2 w,
  ConsumeClaim env (ms1 ++ ms2) w =
  match ConsumeClaim env ms1 w with
  | (Returned None, w1) => ConsumeClaim env ms2 w1
  | r => r
  end.
Proof.
  induction ms1 as [|m ms1 IH]; intros ms2 w; [done |].
  rewrite <- app_comm_cons.
  destruct (Unmarshal env (MsgValue m)) as [batch|e] eqn:Hdec.
  - rewrite !(ConsumeClaim_step _ _ _ _ _ Hdec). apply IH.
  - by rewrite !(ConsumeClaim_unmarshal_error _ _ _ _ _ Hdec).
Qed.

(** X7. The messages that [ConsumeClaim] marks are exactly the messages
    of the claim before the first one whose value does not decode, each
    once and in the order of the claim: the message that does not decode
    and the messages after it are not marked. *)
Theorem ConsumeClaim_marks_decodable_prefix messages w :
  marked (trace (ConsumeClaim env messages w).2) =
  (marked (trace w) ++ decodablePrefix env messages)%list.
Proof.
  revert w. induction messages as [|m rest IH]; intros w.
  - simpl. by rewrite app_nil_r.
  - simpl decodablePrefix.
    destruct (Unmarshal env (MsgValue m)) as [batch|e] eqn:Hdec.
    + rewrite (ConsumeClaim_step _ _ _ _ _ Hdec), IH. cbn [trace].
      unfold marked at 1. rewrite omap_app.
      fold (marked (trace w)).
      fold (marked (batchEvents env m batch (trace w))).
      by rewrite marked_batchEvents, <- app_assoc.
    + rewrite (ConsumeClaim_unmarshal_error _ _ _ _ _ Hdec). cbn [trace snd].
      unfold marked. by rewrite omap_app.
Qed.

(** X8. [ConsumeClaim] always returns (it does not panic): it returns the
    decoding error of the first message that does not decode, and [nil]
    when every message decodes; what the loader reports has no part in
    it. *)
Theorem ConsumeClaim_returns_first_error messages : forall w,
  (ConsumeClaim env messages w).1 = Returned (firstDecodeError env messages).
Proof.
  induction messages as [|m rest IH]; intros w; [done |].
  simpl firstDecodeError.
  destruct (Unmarshal env (MsgValue m)) as [batch|e] eqn:Hdec.
  - rewrite (ConsumeClaim_step _ _ _ _ _ Hdec). apply IH.
  - by rewrite (ConsumeClaim_unmarshal_error _ _ _ _ _ Hdec).
Qed.

(** X9. A message that does not decode ends the loop: the messages that
    follow it in the claim are not read, so they change neither the result
    nor the trace. *)
Theorem ConsumeClaim_stops_at_bad_message before bad rest e w :
  Unmarshal env (MsgValue bad) = inr e ->
  ConsumeClaim env (before ++ bad :: rest) w =
  ConsumeClaim env (before ++ [bad]) w.
Proof.
  intros Hdec. rewrite !ConsumeClaim_app_aux.
  destruct (ConsumeClaim env before w) as [[[e'|]|v] w1]; try done.
  by rewrite !(ConsumeClaim_unmarshal_error _ _ _ _ _ Hdec).
Qed.

(** X10. Consuming a claim in two parts: the second part is consumed
    after the first when the first returned no error, and not at all when
    it returned one. *)
Theorem ConsumeClaim_app ms1 ms2 w :
  ConsumeClaim env (ms1 ++ ms2) w =
  match ConsumeClaim env ms1 w with
  | (Returned None, w1) => ConsumeClaim env ms2 w1
  | r => r
  end.
Proof.
  revert w. induction ms1 as [|m ms1 IH]; intros w; [done |].
  rewrite <- app_comm_cons.
  destruct (Unmarshal env (MsgValue m)) as [batch|e] eqn:Hdec.
  - rewrite !(ConsumeClaim_step _ _ _ _ _ Hdec). apply IH.
  - by rewrite !(ConsumeClaim_unmarshal_error _ _ _ _ _ Hdec).
Qed.

Lemma count_cons P ev tr :
  count P (ev :: tr) = (if P ev then 1 else 0) + count P tr.
Proof.
  unfold count. rewrite filter_cons.
  destruct (P ev); [by rewrite decide_True | by rewrite decide_False].
Qed.

Lemma count_nil P : count P [] = 0.
Proof. reflexivity. Qed.

Lemma count_setEvents P l kvs :
  (forall kv r, P (EvSet l kv r) = false) ->
  forall tr, count P (setEvents env l kvs tr) = 0.
Proof.
  intros HP. induction kvs as [|kv rest IH]; intros tr; [done |].
  simpl. by rewrite count_cons, HP, IH.
Qed.

Lemma setRecords_setEvents l kvs tr :
  setRecords (setEvents env l kvs tr) = kvs.
Proof.
  revert tr. induction kvs as [|kv rest IH]; intros tr; [done |].
  simpl. unfold setRecords in *. simpl. by rewrite IH.
Qed.

Lemma setRecords_app tr1 tr2 :
  setRecords (tr1 ++ tr2) = (setRecords tr1 ++ setRecords tr2)%list.
Proof. apply omap_app. Qed.

Lemma batchEvents_counts message batch tr :
  count isNewLoader (batchEvents env message batch tr) = 1 /\
  count isFinish (batchEvents env message batch tr) = 1 /\
  setRecords (batchEvents env message batch tr) = Kv batch.
Proof.
  unfold batchEvents. split; [|split].
  - rewrite count_cons, count_app, count_setEvents by done. done.
  - rewrite count_cons, count_app, count_setEvents by done. done.
  - unfold setRecords. simpl. rewrite omap_app. simpl.
    rewrite app_nil_r. apply setRecords_setEvents.
Qed.

(** X11. For every message that [ConsumeClaim] marks it has opened one
    loader and finished one loader, and the records it has handed to
    [Set] are the records of those messages, each once, in the order of
    the claim and of each batch; for a message that does not decode no
    loader is opened and no record is set. *)
Theorem ConsumeClaim_loader_discipline messages : forall w,
  let tr := trace (ConsumeClaim env messages w).2 in
  count isNewLoader tr =
    count isNewLoader (trace w) + length (decodablePrefix env messages) /\
  count isFinish tr =
    count isFinish (trace w) + length (decodablePrefix env messages) /\
  setRecords tr = (setRecords (trace w) ++ loadedRecords env messages)%list.
Proof.
  induction messages as [|m rest IH]; intros w.
  - simpl. rewrite !Nat.add_0_r, app_nil_r. done.
  - simpl decodablePrefix. simpl loadedRecords.
    destruct (Unmarshal env (MsgValue m)) as [batch|e] eqn:Hdec.
    + rewrite (ConsumeClaim_step _ _ _ _ _ Hdec).
      destruct (IH {| trace := trace w ++ batchEvents env m batch (trace w);
                      chans := chans w |}) as (Hn & Hf & Hs).
      destruct (batchEvents_counts m batch (trace w)) as (Bn & Bf & Bs).
      cbv zeta. rewrite Hn, Hf, Hs. cbn [trace length].
      rewrite !count_app, setRecords_app, Bn, Bf, Bs, <- app_assoc.
      repeat split; lia.
    + rewrite (ConsumeClaim_unmarshal_error _ _ _ _ _ Hdec).
      cbn [trace snd length]. rewrite !count_app, setRecords_app.
      unfold count at 2 4. unfold setRecords at 3. simpl.
      by rewrite !Nat.add_0_r, !app_nil_r.
Qed.




(** ** Bootstrap *)

(** X12. With no broker configured a setup function only logs the
    (empty) broker list: no client is constructed, no channel is made,
    nothing is started, and the function returns. *)
Theorem setup_without_brokers w :
  setupKafkaSource env "" w =
    (Returned SourceOff,
     {| trace := trace w ++
          [EvLog INFO "source kafka brokers: %v" [ArgStr ""]];
        chans := chans w |}) /\
  setupKafkaTarget env "" w =
    (Returned TargetOff,
     {| trace := trace w ++
          [EvLog INFO "target kafka brokers: %v" [ArgStr ""]];
        chans := chans w |}).
Proof.
  split.
  - unfold setupKafkaSource, glog. by rewrite bind_emit.
  - unfold setupKafkaTarget, glog. by rewrite bind_emit.
Qed.

Section RetryEvents.
Context {C : Type}.
Variable f : list Event -> (C + error) * Event.
Variable P : Event -> bool.
Variable complaint : string.
Hypothesis f_counted : forall tr, P (f tr).2 = true.
Hypothesis f_no_sleep : forall tr, isSleep (f tr).2 = false.
Hypothesis f_no_log : forall tr, isErrorLog (f tr).2 = false.
Hypothesis log_not_counted : forall sev fmt args, P (EvLog sev fmt args) = false.
Hypothesis sleep_not_counted : forall d, P (EvSleep d) = false.

(** What a run of the loop leaves in the trace: calls of the constructor,
    each failed one followed by the complaint and a sleep of five seconds;
    as many sleeps as complaints; one call more than sleeps when the loop
    ends without an error, as many when it ends with one; never more
    calls than iterations. *)
Lemma retryLoop_events n : forall cur w,
  exists r tr,
    retryLoop (emit f) complaint n cur w =
      (Returned r, {| trace := trace w ++ tr; chans := chans w |}) /\
    (n = 0 -> r = cur /\ tr = []) /\
    (n <> 0 ->
       count P tr = count isSleep tr + (if r.2 is Some _ then 0 else 1)) /\
    count isSleep tr = count isErrorLog tr /\
    count P tr <= n /\
    (is_Some r.2 -> count P tr = n) /\
    Forall (fun ev => (exists tr0, ev = (f tr0).2) \/
                      (exists e, ev = EvLog ERROR complaint [ArgErr e]) \/
                      ev = EvSleep (5 * Second)) tr.
Proof.
  induction n as [|n IH]; intros cur w.
  - exists cur, []. simpl. unfold ret. rewrite app_nil_r, world_eta.
    repeat split; try done.
  - destruct ((f (trace w)).1) as [c|e] eqn:Hf.
    + simpl. rewrite bind_emit, Hf. eexists _, _. split; [done |].
      split; [done |]. rewrite !count_cons, f_counted, f_no_sleep, f_no_log.
      repeat split; try done.
      * rewrite !count_nil. simpl. lia.
      * by intros [? ?].
      * constructor; [left; by eexists | constructor].
    + rewrite (retryLoop_failed_attempt f complaint n cur w e Hf).
      destruct (IH (None, Some e)
        {| trace := trace w ++ [(f (trace w)).2;
             EvLog ERROR complaint [ArgErr e]; EvSleep (5 * Second)];
           chans := chans w |})
        as (r & tr & -> & Hzero & Hpos & Hsl & Hle & Hexh & Hall).
      cbn [trace chans]. eexists r, _. rewrite <- app_assoc.
      split; [done |]. split; [done |].
      rewrite !count_app, !count_cons.
      rewrite f_counted, f_no_sleep, f_no_log, log_not_counted,
        sleep_not_counted. cbn [isSleep isErrorLog].
      rewrite !count_nil.
      repeat split.
      * intros _. destruct n as [|n].
        -- destruct Hzero as [-> ->]; [done |]. rewrite !count_nil.
           simpl. lia.
        -- rewrite Hpos by done. lia.
      * lia.
      * lia.
      * intros Hsome. rewrite (Hexh Hsome). lia.
      * apply Forall_app_2; [|done].
        constructor; [left; by eexists |].
        constructor; [right; left; by eexists |].
        constructor; [by right; right | constructor].
Qed.

End RetryEvents.

(** The events of [setupKafkaSource] with a broker list. *)
Lemma setupKafkaSource_events brokers w :
  brokers <> "" ->
  let out := setupKafkaSource env brokers w in
  let cfg := {| ConfigVersion := Some V2_2_0_0;
                ProducerReturnSuccesses := false |} in
  exists tr,
    trace out.2 = (trace w ++ tr)%list /\
    match out.1 with
    | Returned _ =>
        count isNewConsumerGroup tr = count isSleep tr + 1 /\
        count isNewConsumerGroup tr <= 10
    | Panicked _ =>
        count isNewConsumerGroup tr = 10 /\ count isSleep tr = 10
    end /\
    Forall (fun ev =>
              (exists r, ev = EvNewConsumerGroup (Split comma brokers)
                                (kafkaGroup env) cfg r) \/
              (exists sev fmt args, ev = EvLog sev fmt args) \/
              ev = EvSleep (5 * Second) \/
              ev = EvGo "consume") tr.
Proof.
  intros Hne out cfg. unfold out. rewrite (setupKafkaSource_spec _ _ _ Hne).
  cbv zeta. unfold newConsumerGroup.
  match goal with
  | |- context [retryLoop (emit ?f) ?m ?n ?cur ?w0] =>
      destruct (retryLoop_events f isNewConsumerGroup m
                  ltac:(done) ltac:(done) ltac:(done) ltac:(done) ltac:(done)
                  n cur w0)
        as ([client err] & tr & -> & _ & Hpos & _ & Hle & Hexh & Hall)
  end.
  assert (Forall (fun ev =>
              (exists r, ev = EvNewConsumerGroup (Split comma brokers)
                                (kafkaGroup env) cfg r) \/
              (exists sev fmt args, ev = EvLog sev fmt args) \/
              ev = EvSleep (5 * Second) \/
              ev = EvGo "consume") tr) as Hall'.
  { eapply Forall_impl; [exact Hall |]. intros ev [[tr0 ->]|[[e ->]| ->]].
    - left. by eexists.
    - right. left. by eexists _, _, _.
    - right. right. by left. }
  cbn [trace chans snd fst] in *. destruct err as [e|]; cbn [fst snd trace].
  - exists (EvLog INFO "source kafka brokers: %v" [ArgStr brokers] :: tr).
    rewrite <- app_assoc. split; [done |]. rewrite !count_cons. simpl.
    split.
    + rewrite Hexh in * by done. specialize (Hpos ltac:(done)).
      simpl in Hpos. lia.
    + constructor; [right; left; by eexists _, _, _ | done].
  - exists (EvLog INFO "source kafka brokers: %v" [ArgStr brokers] ::
            tr ++ [EvGo "consume"]).
    rewrite <- !app_assoc. split; [done |].
    rewrite !count_cons, !count_app, !count_cons, !count_nil. simpl.
    specialize (Hpos ltac:(done)). simpl in Hpos. split; [lia |].
    constructor; [right; left; by eexists _, _, _ |].
    apply Forall_app_2; [done |]. constructor; [|constructor].
    right. right. by right.
Qed.

(** The events of [setupKafkaTarget] with a broker list. *)
Lemma setupKafkaTarget_events brokers w :
  brokers <> "" ->
  let out := setupKafkaTarget env brokers w in
  let cfg := {| ConfigVersion := None; ProducerReturnSuccesses := true |} in
  exists tr,
    trace out.2 = (trace w ++ tr)%list /\
    match out.1 with
    | Returned TargetDisabled =>
        count isNewSyncProducer tr = 10 /\ count isSleep tr = 10
    | _ =>
        count isNewSyncProducer tr = count isSleep tr + 1 /\
        count isNewSyncProducer tr <= 10
    end /\
    Forall (fun ev =>
              (exists r, ev = EvNewSyncProducer (Split comma brokers) cfg r) \/
              (exists sev fmt args, ev = EvLog sev fmt args) \/
              ev = EvSleep (5 * Second) \/
              ev = EvGo "subscribe") tr.
Proof.
  intros Hne out cfg. unfold out. rewrite (setupKafkaTarget_spec _ _ _ Hne).
  cbv zeta. unfold newSyncProducer.
  match goal with
  | |- context [retryLoop (emit ?f) ?m ?n ?cur ?w0] =>
      destruct (retryLoop_events f isNewSyncProducer m
                  ltac:(done) ltac:(done) ltac:(done) ltac:(done) ltac:(done)
                  n cur w0)
        as ([producer err] & tr & -> & _ & Hpos & _ & Hle & Hexh & Hall)
  end.
  assert (Forall (fun ev =>
              (exists r, ev = EvNewSyncProducer (Split comma brokers) cfg r) \/
              (exists sev fmt args, ev = EvLog sev fmt args) \/
              ev = EvSleep (5 * Second) \/
              ev = EvGo "subscribe") tr) as Hall'.
  { eapply Forall_impl; [exact Hall |]. intros ev [[tr0 ->]|[[e ->]| ->]].
    - left. by eexists.
    - right. left. by eexists _, _, _.
    - right. right. by left. }
  cbn [trace chans snd fst] in *. destruct err as [e|]; cbn [fst snd trace].
  - exists (EvLog INFO "target kafka brokers: %v" [ArgStr brokers] ::
            tr ++ [EvLog ERROR
              "unable to create the kafka sync producer, and will not publish updates"
              []]).
    rewrite <- !app_assoc. split; [done |].
    rewrite !count_cons, !count_app, !count_cons, !count_nil. simpl.
    split.
    + rewrite Hexh in * by done. specialize (Hpos ltac:(done)).
      simpl in Hpos. lia.
    + constructor; [right; left; by eexists _, _, _ |].
      apply Forall_app_2; [done |]. constructor; [|constructor].
      right. left. by eexists _, _, _.
  - exists (EvLog INFO "target kafka brokers: %v" [ArgStr brokers] ::
            tr ++ [EvGo "subscribe";
                   EvLog (VINFO 1) "subscribed to the pstore for updates" []]).
    rewrite <- !app_assoc. split; [done |].
    rewrite !count_cons, !count_app, !count_cons, !count_nil. simpl.
    specialize (Hpos ltac:(done)). simpl in Hpos. split; [lia |].
    constructor; [right; left; by eexists _, _, _ |].
    apply Forall_app_2; [done |].
    constructor; [right; right; by right |].
    constructor; [right; left; by eexists _, _, _ | constructor].
Qed.

(** X13. With a broker list, a setup function sleeps five seconds after
    every failed construction, the last one included. So when the consumer
    setup panics, and when the producer setup gives up, ten constructions
    and ten sleeps of five seconds have gone by; when a setup gets its
    client, it has made at most ten constructions and one sleep fewer. *)
Theorem bootstrap_sleeps_after_every_failure brokers w :
  brokers <> "" ->
  (exists tr,
     trace (setupKafkaSource env brokers w).2 = (trace w ++ tr)%list /\
     Forall (fun ev => isSleep ev = true -> ev = EvSleep (5 * Second)) tr /\
     match (setupKafkaSource env brokers w).1 with
     | Returned _ =>
         count isNewConsumerGroup tr = count isSleep tr + 1 /\
         count isNewConsumerGroup tr <= 10
     | Panicked _ =>
         count isNewConsumerGroup tr = 10 /\ count isSleep tr = 10
     end)
  /\ (exists tr,
     trace (setupKafkaTarget env brokers w).2 = (trace w ++ tr)%list /\
     Forall (fun ev => isSleep ev = true -> ev = EvSleep (5 * Second)) tr /\
     match (setupKafkaTarget env brokers w).1 with
     | Returned TargetDisabled =>
         count isNewSyncProducer tr = 10 /\ count isSleep tr = 10
     | _ =>
         count isNewSyncProducer tr = count isSleep tr + 1 /\
         count isNewSyncProducer tr <= 10
     end).
Proof.
  intros Hne. split.
  - destruct (setupKafkaSource_events brokers w Hne) as (tr & Htr & Hc & Hall).
    exists tr. split; [done |]. split; [|done].
    eapply Forall_impl; [exact Hall |].
    intros ev [[r ->]|[(sev & fmt & args & ->)|[-> | ->]]]; done.
  - destruct (setupKafkaTarget_events brokers w Hne) as (tr & Htr & Hc & Hall).
    exists tr. split; [done |]. split; [|done].
    eapply Forall_impl; [exact Hall |].
    intros ev [[r ->]|[(sev & fmt & args & ->)|[-> | ->]]]; done.
Qed.

(** X14. Every construction that [setupKafkaSource] attempts is a
    consumer group on the comma-separated parts of the broker list, for the
    group [kafkaGroup], with protocol version 2.2.0.0, and it constructs no
    producer; every construction that [setupKafkaTarget] attempts is a
    producer on the parts of the broker list with the return of successes
    switched on, and it constructs no consumer group. *)
Theorem bootstrap_constructor_arguments brokers w :
  brokers <> "" ->
  (exists tr,
     trace (setupKafkaSource env brokers w).2 = (trace w ++ tr)%list /\
     Forall (fun ev =>
               match ev with
               | EvNewConsumerGroup addrs g cfg _ =>
                   addrs = Split comma brokers /\ g = kafkaGroup env /\
                   ConfigVersion cfg = Some [2; 2; 0; 0]%Z
               | EvNewSyncProducer _ _ _ => False
               | _ => True
               end) tr)
  /\ (exists tr,
     trace (setupKafkaTarget env brokers w).2 = (trace w ++ tr)%list /\
     Forall (fun ev =>
               match ev with
               | EvNewSyncProducer addrs cfg _ =>
                   addrs = Split comma brokers /\
                   ProducerReturnSuccesses cfg = true
               | EvNewConsumerGroup _ _ _ _ => False
               | _ => True
               end) tr).
Proof.
  intros Hne. split.
  - destruct (setupKafkaSource_events brokers w Hne) as (tr & Htr & _ & Hall).
    exists tr. split; [done |]. eapply Forall_impl; [exact Hall |].
    intros ev [[r ->]|[(sev & fmt & args & ->)|[-> | ->]]]; done.
  - destruct (setupKafkaTarget_events brokers w Hne) as (tr & Htr & _ & Hall).
    exists tr. split; [done |]. eapply Forall_impl; [exact Hall |].
    intros ev [[r ->]|[(sev & fmt & args & ->)|[-> | ->]]]; done.
Qed.

(** ** The producer *)

Lemma sends_app tr1 tr2 : sends (tr1 ++ tr2) = (sends tr1 ++ sends tr2)%list.
Proof. apply omap_app. Qed.

(** X15. Over the batches that the subscription delivers, the callback
    never panics; it sends every batch that serializes, once, to
    [kafkaTopic] and in the order of delivery, whatever earlier sends
    returned; and every batch that does not serialize costs one error line
    and stops nothing after it. *)
Theorem subscription_sends_serializable_batches p batches : forall w,
  exists tr,
    subscription env (Some p) batches w =
      (Returned tt, {| trace := trace w ++ tr; chans := chans w |}) /\
    sends tr = serialized env batches /\
    count isErrorLog tr + length (sends tr) = length batches.
Proof.
  induction batches as [|b rest IH]; intros w.
  - exists []. simpl. unfold ret. by rewrite app_nil_r, world_eta.
  - simpl subscription. unfold bind at 1. unfold serialized. simpl omap.
    fold (serialized env rest).
    destruct (Marshal env b) as [bytes|e] eqn:Hm.
    + rewrite (cb_sends_once env p b bytes w Hm). cbv zeta.
      match goal with
      | |- context [subscription env (Some p) rest ?w1] =>
          destruct (IH w1) as (tr & -> & Hs & Hc)
      end.
      cbn [trace chans]. eexists (_ ++ tr)%list. rewrite <- app_assoc.
      split; [done |]. rewrite sends_app, count_app, Hs.
      split; [done |]. rewrite length_app, <- Hs. simpl. lia.
    + rewrite (cb_marshal_error env (Some p) b e w Hm).
      match goal with
      | |- context [subscription env (Some p) rest ?w1] =>
          destruct (IH w1) as (tr & -> & Hs & Hc)
      end.
      cbn [trace chans]. eexists (_ ++ tr)%list. rewrite <- app_assoc.
      split; [done |]. rewrite sends_app, count_app, Hs.
      split; [done |]. rewrite length_app, <- Hs. simpl. lia.
Qed.

(** ** The consume loop and the ready channel *)

(** X16. The channel [ready] is closed by the first session and by
    nothing else: calls of [Consume] that fail to join the group leave it
    open (the caller of [setupKafkaSource] keeps waiting) and the loop goes
    on, and the first call that starts a session closes it and the loop
    goes on. *)
Theorem ready_closed_by_first_session consumer before claims result w :
  chans w !! ready consumer = Some Open ->
  Forall (fun a => exists e, a = JoinFails e) before ->
  (exists tr,
     consumeLoop env consumer before w =
     (Returned tt, {| trace := trace w ++ tr; chans := chans w |}))
  /\ (exists tr,
     consumeLoop env consumer (before ++ [Session claims result]) w =
     (Returned tt,
      {| trace := trace w ++ tr;
         chans := <[ready consumer := Closed]> (chans w) |})).
Proof.
  intros Hopen Hjoin. split.
  - destruct (consumeLoop_join_failures env consumer before [] Hjoin w)
      as (tr & Heq).
    rewrite app_nil_r in Heq. rewrite Heq. by exists tr.
  - destruct (consumeLoop_join_failures env consumer before
                [Session claims result] Hjoin w) as (tr & ->).
    destruct (consumeLoop_first_session env consumer claims result []
                {| trace := trace w ++ tr; chans := chans w |} Hopen)
      as (tr' & ->).
    cbn [trace chans]. exists (tr ++ tr')%list. by rewrite app_assoc.
Qed.

End EdgraphCoverage.

(** ** The further properties in the scripted environment *)

(** A claim of three messages whose second does not decode: the third
    is not read. *)
Lemma ConsumeClaim_stops_at_bad_message_witness :
  Edgraph.ConsumeClaim (Edgraph.Scripted.env 0 false false)
    ([Edgraph.Scripted.message "a=1"] ++
     Edgraph.Scripted.message "zz" :: [Edgraph.Scripted.message "b=2"])
    Edgraph.Scripted.w0 =
  Edgraph.ConsumeClaim (Edgraph.Scripted.env 0 false false)
    ([Edgraph.Scripted.message "a=1"] ++ [Edgraph.Scripted.message "zz"])
    Edgraph.Scripted.w0.
Proof.
  exact (ConsumeClaim_stops_at_bad_message
           (Edgraph.Scripted.env 0 false false)
           [Edgraph.Scripted.message "a=1"] (Edgraph.Scripted.message "zz")
           [Edgraph.Scripted.message "b=2"] "proto: illegal record"
           Edgraph.Scripted.w0 eq_refl).
Defined.

(** Ten failures: the consumer setup has slept ten times when it
    panics. *)
Lemma bootstrap_sleeps_after_every_failure_witness :
  exists tr,
    Edgraph.trace (Edgraph.setupKafkaSource
      (Edgraph.Scripted.env 10 false false) Edgraph.Scripted.brokers
      Edgraph.Scripted.w0).2 = ([] ++ tr)%list /\
    Edgraph.count Edgraph.isSleep tr = 10.
Proof.
  destruct (bootstrap_sleeps_after_every_failure
              (Edgraph.Scripted.env 10 false false) Edgraph.Scripted.brokers
              Edgraph.Scripted.w0 ltac:(discriminate))
    as [(tr & Htr & _ & Hcount) _].
  exists tr. split; [exact Htr |].
  change ((Edgraph.setupKafkaSource (Edgraph.Scripted.env 10 false false)
             Edgraph.Scripted.brokers Edgraph.Scripted.w0).1)
    with (Edgraph.Panicked (A := Edgraph.SourceState)
            (Edgraph.PanicError
               "kafka: client has run out of available brokers"))
    in Hcount.
  exact (proj2 Hcount).
Defined.

(** The constructions of a consumer setup that succeeds at the third
    attempt. *)
Lemma bootstrap_constructor_arguments_witness :
  exists tr,
    Edgraph.trace (Edgraph.setupKafkaSource
      (Edgraph.Scripted.env 2 false false) Edgraph.Scripted.brokers
      Edgraph.Scripted.w0).2 = ([] ++ tr)%list /\
    Forall (fun ev =>
              match ev with
              | Edgraph.EvNewConsumerGroup addrs g cfg _ =>
                  addrs = Edgraph.Split Edgraph.comma Edgraph.Scripted.brokers
                  /\ g = "dgraph" /\
                  Edgraph.ConfigVersion cfg = Some [2; 2; 0; 0]%Z
              | Edgraph.EvNewSyncProducer _ _ _ => False
              | _ => True
              end) tr.
Proof.
  destruct (bootstrap_constructor_arguments
              (Edgraph.Scripted.env 2 false false) Edgraph.Scripted.brokers
              Edgraph.Scripted.w0 ltac:(discriminate)) as [Hsource _].
  exact Hsource.
Defined.

(** One failed join and then a session, on an open channel. *)
Lemma ready_closed_by_first_session_witness :
  exists tr,
    Edgraph.consumeLoop (Edgraph.Scripted.env 0 false false)
      {| Edgraph.ready := 0 |}
      ([Edgraph.JoinFails "kafka: no coordinator"] ++
       [Edgraph.Session [[Edgraph.Scripted.message "a=1"]] None])
      Edgraph.Scripted.wOpen =
    (Edgraph.Returned tt,
     {| Edgraph.trace := [] ++ tr;
        Edgraph.chans := <[0 := Edgraph.Closed]> {[0 := Edgraph.Open]} |}).
Proof.
  destruct (ready_closed_by_first_session
              (Edgraph.Scripted.env 0 false false) {| Edgraph.ready := 0 |}
              [Edgraph.JoinFails "kafka: no coordinator"]
              [[Edgraph.Scripted.message "a=1"]] None
              Edgraph.Scripted.wOpen eq_refl
              ltac:(repeat constructor; by eexists)) as [_ Hsession].
  exact Hsession.
Defined.

